(** * The conversation orchestration layer of the voice-to-code agent

    A shallow embedding of [src/agents/codeGen.ts] (the generation session
    manager) and of the conversation server that is stored next to it (the
    extraction engine, the approval detector, the YAML buffer and the phase
    handling of the [ConversationText] handler), together with the properties
    of the specification that were checked against them.

    Conventions of the embedding.
    - A JavaScript string is a [string]: a sequence of UTF-16 code units below
      256 (the Latin-1 range, which contains every character of the patterns,
      keys and phrase tables of the program).  [toLowerCase], [trim] and the
      regular expressions are given their ECMAScript meaning on that range.
    - [Date.now()] and [new Date()] are read from an explicit argument, in
      milliseconds ([Z]); the clock does not advance within one turn of the
      event loop.
    - The process-wide mutable objects become fields of explicit records that
      are passed in and returned; what the program does to the outside (the
      browser socket, the code generator, the file system) is recorded in a
      trace.
    - The code generator is an input: the callbacks it invokes and the way
      its promise settles.  A call that awaits it is followed to its end;
      other handlers that the event loop could run in between are not
      interleaved.
    - A JavaScript number is a binary64 value ([SpecFloat]); the time value
      of a [Date] is an integer, or none when the date is invalid.
    - In [cancelCodeGeneration] and [cleanupStaleGenerations] the call of
      [cleanupSession] returns; in [startCodeGeneration] what it throws is an
      input. *)

From Stdlib Require Import String Ascii ZArith NArith List Bool Lia DecimalString.
From Stdlib Require SpecFloat.
From stdpp Require Import base gmap strings list fin_maps.

Local Open Scope bool_scope.

(** ** JavaScript string operations *)

Module JsString.

(** [WhiteSpace] and [LineTerminator] code units below 256, the characters
    removed by [String.prototype.trim] and matched by [\s]:
    TAB, LF, VT, FF, CR, SPACE and NO-BREAK SPACE. *)
Definition isWhiteSpace (c : ascii) : bool :=
  let n := N_of_ascii c in
  ((9 <=? n) && (n <=? 13) || (n =? 32) || (n =? 160))%N.

(** The [LineTerminator] code units below 256: LF and CR. *)
Definition isLineTerminator (c : ascii) : bool :=
  let n := N_of_ascii c in ((n =? 10) || (n =? 13))%N.

(** [\w] : [A-Za-z0-9_]. *)
Definition isWordChar (c : ascii) : bool :=
  let n := N_of_ascii c in
  ((65 <=? n) && (n <=? 90) || (97 <=? n) && (n <=? 122)
   || (48 <=? n) && (n <=? 57) || (n =? 95))%N.

(** The upper-case code units below 256 whose lower-case form is the code unit
    32 above: A-Z, and U+00C0..U+00DE except the multiplication sign U+00D7. *)
Definition isUpper (c : ascii) : bool :=
  let n := N_of_ascii c in
  ((65 <=? n) && (n <=? 90) || (192 <=? n) && (n <=? 214)
   || (216 <=? n) && (n <=? 222))%N.

Definition lowerChar (c : ascii) : ascii :=
  if isUpper c then ascii_of_N (N_of_ascii c + 32) else c.

(** [s.toLowerCase()] *)
Fixpoint toLowerCase (s : string) : string :=
  match s with
  | EmptyString => EmptyString
  | String c s' => String (lowerChar c) (toLowerCase s')
  end.

(** [s.startsWith(sub)] *)
Fixpoint startsWith (s sub : string) : bool :=
  match sub, s with
  | EmptyString, _ => true
  | String _ _, EmptyString => false
  | String a sub', String b s' => Ascii.eqb a b && startsWith s' sub'
  end.

(** [s.includes(sub)] *)
Fixpoint includes (s sub : string) : bool :=
  startsWith s sub ||
  match s with
  | EmptyString => false
  | String _ s' => includes s' sub
  end.

(** The text behind the first [String.length sub] code units. *)
Fixpoint dropLen (sub s : string) : string :=
  match sub, s with
  | String _ sub', String _ s' => dropLen sub' s'
  | _, _ => s
  end.

(** The first occurrence of [sub] in [s]: the text before it and the text
    after it ([s.indexOf(sub)] with the two [substring]s around it). *)
Fixpoint cut (s sub : string) : option (string * string) :=
  if startsWith s sub then Some (EmptyString, dropLen sub s)
  else match s with
       | EmptyString => None
       | String c s' =>
           match cut s' sub with
           | Some (before, after) => Some (String c before, after)
           | None => None
           end
       end.

Fixpoint trimStart (s : string) : string :=
  match s with
  | EmptyString => EmptyString
  | String c s' => if isWhiteSpace c then trimStart s' else s
  end.

Fixpoint trimEnd (s : string) : string :=
  match s with
  | EmptyString => EmptyString
  | String c s' =>
      match trimEnd s' with
      | EmptyString => if isWhiteSpace c then EmptyString else String c EmptyString
      | r => String c r
      end
  end.

(** [s.trim()] *)
Definition trim (s : string) : string := trimEnd (trimStart s).

(** [s.split('\n')] *)
Fixpoint splitLines (s : string) : list string :=
  match s with
  | EmptyString => [EmptyString]
  | String c s' =>
      if Ascii.eqb c "010"%char then EmptyString :: splitLines s'
      else match splitLines s' with
           | l :: ls => String c l :: ls
           | [] => [String c EmptyString]
           end
  end.

(** [a.join('\n')] *)
Fixpoint joinLines (ls : list string) : string :=
  match ls with
  | [] => EmptyString
  | [l] => l
  | l :: ls' => l +:+ String "010"%char (joinLines ls')
  end.

(** [a.slice(from, to)] for [0 <= from] and [0 <= to]. *)
Definition slice {A} (l : list A) (from to : nat) : list A :=
  take (to - from) (drop from l).

(** The longest prefix without a line terminator: what a lazy [[\s\S]*?]
    followed by a multi-line [$] captures. *)
Fixpoint restOfLine (s : string) : string :=
  match s with
  | EmptyString => EmptyString
  | String c s' => if isLineTerminator c then EmptyString else String c (restOfLine s')
  end.

(** A value used as a condition: the empty string is falsy. *)
Definition truthy (s : string) : bool :=
  match s with EmptyString => false | _ => true end.

End JsString.

(** ** JavaScript numbers and time values *)

Module JsNumber.
Import SpecFloat.

(** A Number is an IEEE 754 binary64 value, as [SpecFloat] specifies them:
    53 bits of precision, rounding to nearest with ties to even. *)
Definition Number := spec_float.

(** The Number of an integer literal, and of [Date.now()]. *)
Definition ofInteger (z : Z) : Number := binary_normalize 53 1024 z 0 false.

(** [x * y] and [x - y] *)
Definition times (x y : Number) : Number := SFmul 53 1024 x y.

Definition minus (x y : Number) : Number := SFsub 53 1024 x y.

(** The largest time value, 8.64e15 milliseconds. *)
Definition maxTime : Z := 8640000000000000.

(** [TimeClip], which gives the time value of [new Date(v)]: [None] is the
    time value [NaN] of an Invalid Date, for a [v] that is not finite or
    whose magnitude is above [maxTime]; otherwise [v] is truncated toward
    zero. *)
Definition timeClip (v : Number) : option Z :=
  match v with
  | S754_zero _ => Some 0%Z
  | S754_finite sign m e =>
      let k := Z.max 0 (- e) in
      if (Z.shiftl maxTime k <? Z.shiftl (Zpos m) (e + k))%Z then None
      else Some (cond_Zopp sign (Z.shiftl (Zpos m) e))
  | _ => None
  end.

End JsNumber.

(** ** The extraction engine and the approval detector *)

Module Extraction.
Import JsString.

Definition nl : string := String "010"%char EmptyString.

(** The four regular expressions of [extractYamlFromText].  Each has one
    capture group [([\s\S]*?)] between literal text. *)
Inductive Pattern :=
  | Between (opening closing : string)   (* /OPENING([\s\S]*?)CLOSING/ *)
  | ToLineEnd (opening : string).        (* /OPENING([\s\S]*?)$/m *)

(** [text.match(/OPENING([\s\S]*?)CLOSING/)], capture group 1.  The match is
    the leftmost one: it starts at the first occurrence of [opening] (if no
    [closing] follows that occurrence, none follows a later one), and the lazy
    group stops at the first [closing] behind it. *)
Definition matchBetween (opening closing text : string) : option string :=
  match cut text opening with
  | Some (_, rest) =>
      match cut rest closing with
      | Some (inner, _) => Some inner
      | None => None
      end
  | None => None
  end.

(** [text.match(/OPENING([\s\S]*?)$/m)], capture group 1: with the [m] flag
    [$] matches in front of the first line terminator, so the lazy group is
    the rest of the line behind the first [opening]. *)
Definition matchToLineEnd (opening text : string) : option string :=
  match cut text opening with
  | Some (_, rest) => Some (restOfLine rest)
  | None => None
  end.

Definition matchGroup1 (p : Pattern) (text : string) : option string :=
  match p with
  | Between o c => matchBetween o c text
  | ToLineEnd o => matchToLineEnd o text
  end.

Definition patterns : list Pattern :=
  [ Between ("```yaml" +:+ nl) (nl +:+ "```");   (* /```yaml\n([\s\S]*?)\n```/ *)
    Between "```yaml" "```";                     (* /```yaml([\s\S]*?)```/ *)
    Between ("```" +:+ nl) (nl +:+ "```");       (* /```\n([\s\S]*?)\n```/ *)
    ToLineEnd ("yaml" +:+ nl) ].                 (* /yaml\n([\s\S]*?)$/m *)

Definition hasAllFields (yamlContent : string) : bool :=
  includes yamlContent "project_name:" &&
  includes yamlContent "project_description:" &&
  includes yamlContent "users:" &&
  includes yamlContent "goal:" &&
  includes yamlContent "features:" &&
  includes yamlContent "tech_stack:" &&
  includes yamlContent "ui_style:".

(** The [for (const pattern of patterns)] loop. *)
Fixpoint tryPatterns (ps : list Pattern) (text : string) : option string :=
  match ps with
  | [] => None
  | p :: ps' =>
      match matchGroup1 p text with
      | Some g =>
          if truthy g then
            let yamlContent := trim g in
            if hasAllFields yamlContent then Some yamlContent
            else tryPatterns ps' text
          else tryPatterns ps' text
      | None => tryPatterns ps' text
      end
  end.

Definition isEndLine (l : string) : bool :=
  String.eqb (trim l) EmptyString || includes l "How does that" || includes l "```".

(** The inner loop [for (let j = i; ...)]: [rest] holds the lines from index
    [j] on; [None] stands for [yamlEnd === -1]. *)
Fixpoint findEnd (rest : list string) (j : nat) : option nat :=
  match rest with
  | [] => None
  | l :: rest' => if isEndLine l then Some j else findEnd rest' (S j)
  end.

(** The outer loop [for (let i = 0; ...)]: [rest] holds the lines from index
    [i] on, [total] is [lines.length]; the result is [(yamlStart, yamlEnd)]
    with [None] for [-1]. *)
Fixpoint scanLines (total : nat) (rest : list string) (i : nat)
    (yamlStart : option nat) : option nat * option nat :=
  match rest with
  | [] => (yamlStart, None)
  | l :: rest' =>
      let yamlStart :=
        match yamlStart with
        | None => if includes l "project_name:" then Some i else None
        | Some _ => yamlStart
        end in
      match yamlStart with
      | Some _ =>
          if includes l "ui_style:" || includes l "tech_stack:" then
            (yamlStart, Some (default total (findEnd rest i)))
          else scanLines total rest' (S i) yamlStart
      | None => scanLines total rest' (S i) yamlStart
      end
  end.

(** The scan for YAML-like content without code blocks. *)
Definition fallbackScan (text : string) : option string :=
  if includes text "project_name:" && includes text "features:" &&
     includes text "tech_stack:" && includes text "users:" &&
     includes text "goal:" then
    let lines := splitLines text in
    match scanLines (length lines) lines 0 None with
    | (Some yamlStart, Some yamlEnd) =>
        Some (trim (joinLines (slice lines yamlStart yamlEnd)))
    | _ => None
    end
  else None.

(** [extractYamlFromText]: [None] is [null]. *)
Definition extractYamlFromText (text : string) : option string :=
  match tryPatterns patterns text with
  | Some yamlContent => Some yamlContent
  | None => fallbackScan text
  end.

Definition approvalPhrases : list string :=
  [ "looks good"; "that looks good"; "yes"; "perfect"; "great"; "awesome";
    "i like that"; "that works"; "let's build"; "let's go"; "ready";
    "is ready"; "it's ready"; "the prompt is ready"; "prompt is ready";
    "approved"; "correct"; "that's right"; "sounds good"; "good to go";
    "let's do it"; "let's start"; "move on"; "next step"; "continue";
    "proceed" ].

(** [detectYamlApproval]: the loop returns [true] at the first phrase found. *)
Definition detectYamlApproval (userMessage : string) : bool :=
  let lowerMessage := trim (toLowerCase userMessage) in
  existsb (fun phrase => includes lowerMessage phrase) approvalPhrases.

End Extraction.

(** ** The generation session manager ([src/agents/codeGen.ts]) *)

Module CodeGen.
Import JsString JsNumber.

Inductive Status := starting | generating | building | ready | error | cancelled.

Definition Status_eqb (a b : Status) : bool :=
  match a, b with
  | starting, starting | generating, generating | building, building
  | ready, ready | error, error | cancelled, cancelled => true
  | _, _ => false
  end.

(** [interface GenerationSession]; [startTime] in milliseconds; [cancelFn] is
    the identity of the cancellation handle, when there is one. *)
Record GenerationSession := {
  status : Status;
  startTime : Z;
  yamlPrompt : option string;
  previewUrl : option string;
  repoPath : option string;
  cancelFn : option nat
}.

Definition setStatus (st : Status) (g : GenerationSession) : GenerationSession :=
  {| status := st; startTime := startTime g; yamlPrompt := yamlPrompt g;
     previewUrl := previewUrl g; repoPath := repoPath g; cancelFn := cancelFn g |}.

Definition setPreviewUrl (url : string) (g : GenerationSession) : GenerationSession :=
  {| status := status g; startTime := startTime g; yamlPrompt := yamlPrompt g;
     previewUrl := Some url; repoPath := repoPath g; cancelFn := cancelFn g |}.

Definition setRepoPath (p : string) (g : GenerationSession) : GenerationSession :=
  {| status := status g; startTime := startTime g; yamlPrompt := yamlPrompt g;
     previewUrl := previewUrl g; repoPath := Some p; cancelFn := cancelFn g |}.

(** [interface FileNode] of the code generator. *)
#[warnings="-register-all"] Inductive FileNode :=
  | Node (name path : string) (children : option (list FileNode)).

(** The [data] object of an event. *)
Inductive EventData :=
  | NoData
  | StartData (yamlPrompt : string)
  | LogData (chunk : string)
  | FileTreeData (tree : FileNode)
  | PreviewReadyData (url : string)
  | CompleteData (previewUrl repoPath : string) (duration : Z)
  | ErrorData (error : string) (duration : option Z).

(** What is written to the browser socket. *)
Inductive BrowserMsg :=
  | Event (type sessionId : string) (timestamp : Z) (data : EventData)
  | Text (role content : string)
  | PhaseTransition (phase sessionId : string).

(** The interactions with the outside, in the order in which they happen.
    [EmitEvent] records a call of [emitEvent], [Send] a [browserWs.send],
    [CleanupSession] a call of [cleanupSession], [RunCodegen] a call of
    [runOpenAICodegen] (with the value of [validation.processed]) and
    [CallCancelFn] a call of a session's [cancelFn]. *)
Inductive Effect :=
  | EmitEvent (type sessionId : string) (data : EventData)
  | Send (m : BrowserMsg)
  | CleanupSession (sessionId : string)
  | RunCodegen (yamlPrompt : option string) (sessionId : string)
  | CallCancelFn (handle : nat).

(** The process state of the module.  Session objects live in [heap] and are
    referred to by their index, so that the object held by a running
    [startCodeGeneration] and the one in [activeGenerations] are the same;
    [generated] is the set of session identifiers [id] whose directory
    [generated/id] exists. *)
Record Store := {
  heap : list GenerationSession;
  activeGenerations : gmap string nat;
  generated : gset string;
  trace : list Effect
}.

Definition setHeap (h : list GenerationSession) (s : Store) : Store :=
  {| heap := h; activeGenerations := activeGenerations s;
     generated := generated s; trace := trace s |}.

Definition setActive (m : gmap string nat) (s : Store) : Store :=
  {| heap := heap s; activeGenerations := m;
     generated := generated s; trace := trace s |}.

Definition setGenerated (d : gset string) (s : Store) : Store :=
  {| heap := heap s; activeGenerations := activeGenerations s;
     generated := d; trace := trace s |}.

Definition log (e : Effect) (s : Store) : Store :=
  {| heap := heap s; activeGenerations := activeGenerations s;
     generated := generated s; trace := trace s ++ [e] |}.

(** A mutation of the session object at [l]. *)
Definition update (l : nat) (f : GenerationSession -> GenerationSession)
    (s : Store) : Store :=
  setHeap (alter f l (heap s)) s.

(** What the code observes of its surroundings in one turn of the event loop:
    the clock, and whether the [readyState] of the browser socket it was
    given is [OPEN]. *)
Record Instant := { now : Z; wsOpen : bool }.

(** The result of [validateYamlPrompt]. *)
Record Validation := {
  isValid : bool;
  errors : list string;
  processed : option string
}.

(** [validateYamlPrompt].  Nothing in the [try] block throws, so the [catch]
    branch is never taken. *)
Definition validateYamlPrompt (yamlText : string) : Validation :=
  let errors :=
    (if includes yamlText "project_name:" then []
     else ["Missing required field: project_name"]) ++
    (if includes yamlText "features:" then []
     else ["Missing required field: features"]) ++
    (if includes yamlText "tech_stack:" then []
     else ["Missing required field: tech_stack"]) in
  let processed :=
    if includes yamlText "ui_style:" then yamlText
    else yamlText +:+ String "010"%char "ui_style: Clean and modern" in
  let valid := match errors with [] => true | _ => false end in
  {| isValid := valid;
     errors := errors;
     processed := if valid then Some processed else None |}.

(** [cleanupSession]: removes the directory of the session if it exists. *)
Definition cleanupSession (sessionId : string) (s : Store) : Store :=
  setGenerated (generated s ∖ {[sessionId]}) (log (CleanupSession sessionId) s).

(** [emitEvent]: writes to the socket only if it is open. *)
Definition emitEvent (i : Instant) (type sessionId : string) (data : EventData)
    (s : Store) : Store :=
  let s := log (EmitEvent type sessionId data) s in
  if wsOpen i then log (Send (Event type sessionId (now i) data)) s else s.

(** A callback of [CodegenEvents] invoked by the code generator. *)
Inductive Callback :=
  | OnLog (chunk : string)
  | OnFileTree (tree : FileNode)
  | OnPreviewReady (url : string)
  | OnError (message : string).

(** What a rejected promise carries: an [Error] with its message, or another
    value. *)
Inductive Thrown :=
  | ErrorObject (message : string)
  | OtherValue.

Inductive CodegenOutcome :=
  | Resolved (previewUrl repoPath : string)
  | Rejected (e : Thrown).

(** What the surroundings do during one call of [startCodeGeneration].  The
    external collaborator [runOpenAICodegen], if it is called: the callbacks
    it invokes, each at its instant, whether it created the directory of the
    session, and how and when its promise settles.  The call of
    [cleanupSession] in the [catch] block, if that block is entered:
    [cleanupError] is the value that it throws ([process.cwd] and [fs.rmSync]
    can throw), [None] when it returns. *)
Record CodegenRun := {
  callbacks : list (Instant * Callback);
  createsDir : bool;
  settled : Instant;
  outcome : CodegenOutcome;
  cleanupError : option Thrown
}.

(** The [browserWs] argument of a call.  Its type is [WebSocket], but the one
    call site of [startCodeGeneration] passes [browserWs!], which is [null]
    as long as no browser is connected. *)
Inductive SocketArg := NullSocket | SocketObject.

(** The return value of [startCodeGeneration]. *)
Record GenResult := {
  success : bool;
  resultPreviewUrl : option string;
  resultError : option string
}.

(** A function call either returns or throws. *)
Inductive Completion (A : Type) :=
  | Returned (a : A)
  | Threw (e : Thrown).
Arguments Returned {A} a.
Arguments Threw {A} e.

(** Lines 114-119: the session object is created and registered. *)
Definition registerSession (yamlPrompt sessionId : string) (t : Z)
    (s : Store) : nat * Store :=
  let l := length (heap s) in
  let session := {| status := starting; startTime := t;
                    yamlPrompt := Some yamlPrompt; previewUrl := None;
                    repoPath := None; cancelFn := None |} in
  (l, setActive (<[sessionId := l]> (activeGenerations s))
        (setHeap (heap s ++ [session]) s)).

(** The four callbacks handed to [runOpenAICodegen], for the session object
    at [l]. *)
Definition onCallback (l : nat) (sessionId : string) (s : Store)
    (ic : Instant * Callback) : Store :=
  let (i, c) := ic in
  match c with
  | OnLog chunk => emitEvent i "codegen-log" sessionId (LogData chunk) s
  | OnFileTree tree => emitEvent i "codegen-file-tree" sessionId (FileTreeData tree) s
  | OnPreviewReady url =>
      emitEvent i "codegen-preview-ready" sessionId (PreviewReadyData url)
        (update l (setPreviewUrl url) (update l (setStatus ready) s))
  | OnError message =>
      emitEvent i "codegen-error" sessionId (ErrorData message None)
        (update l (setStatus error) s)
  end.

Definition startTimeAt (l : nat) (s : Store) : Z :=
  match heap s !! l with Some g => startTime g | None => 0 end.

(** The [catch] block of [startCodeGeneration].  Nothing catches what
    [cleanupSession] throws in it: the session then stays registered. *)
Definition onFailure (l : nat) (sessionId : string) (i : Instant)
    (cleanupError : option Thrown) (e : Thrown) (s : Store)
    : Store * Completion GenResult :=
  let s := update l (setStatus error) s in
  let errorMessage :=
    match e with ErrorObject m => m | OtherValue => "Unknown error occurred" end in
  let s := emitEvent i "codegen-error" sessionId
             (ErrorData errorMessage (Some (now i - startTimeAt l s)%Z)) s in
  match cleanupError with
  | Some thrown => (log (CleanupSession sessionId) s, Threw thrown)
  | None =>
      let s := cleanupSession sessionId s in
      let s := setActive (delete sessionId (activeGenerations s)) s in
      (s, Returned {| success := false; resultPreviewUrl := None;
                      resultError := Some errorMessage |})
  end.

(** [startCodeGeneration], started at instant [i]; [run] is what the
    collaborator and the file system do if they are called.  With a [null]
    socket the first [emitEvent] throws a [TypeError] when it reads
    [browserWs.readyState], before the [try] block is entered.  A [throw]
    inside the [try] block continues in [onFailure]. *)
Definition startCodeGeneration (yamlPrompt sessionId : string)
    (browserWs : SocketArg) (i : Instant) (run : CodegenRun) (s : Store)
    : Store * Completion GenResult :=
  let (l, s) := registerSession yamlPrompt sessionId (now i) s in
  match browserWs with
  | NullSocket =>
      (s, Threw (ErrorObject "Cannot read properties of null (reading 'readyState')"))
  | SocketObject =>
  let s := emitEvent i "codegen-start" sessionId (StartData yamlPrompt) s in
  (* Step 1: validate YAML *)
  let validation := validateYamlPrompt yamlPrompt in
  if negb (isValid validation) then
    let e := ErrorObject ("YAML validation failed: " +:+
                          String.concat ", " (errors validation)) in
    onFailure l sessionId i (cleanupError run) e s
  else
    let s := update l (setStatus generating) s in
    let s := emitEvent i "codegen-validation-passed" sessionId NoData s in
    (* Step 2: call the code generator *)
    let s := log (RunCodegen (processed validation) sessionId) s in
    let s := foldl (onCallback l sessionId) s (callbacks run) in
    let s := if createsDir run
             then setGenerated (generated s ∪ {[sessionId]}) s else s in
    match outcome run with
    | Resolved url path =>
        (* Step 3: success *)
        let s := update l (setRepoPath path) s in
        let s := emitEvent (settled run) "codegen-complete" sessionId
                   (CompleteData url path (now (settled run) - startTimeAt l s)%Z) s in
        (s, Returned {| success := true; resultPreviewUrl := Some url;
                        resultError := None |})
    | Rejected e =>
        (* Step 4: error handling *)
        onFailure l sessionId (settled run) (cleanupError run) e s
    end
  end.

(** [cancelCodeGeneration], called with a WebSocket object, as its type asks
    for; the program has no call site for it. *)
Definition cancelCodeGeneration (sessionId : string) (i : Instant)
    (s : Store) : Store * bool :=
  match activeGenerations s !! sessionId with
  | None => (s, false)
  | Some l =>
      let s := update l (setStatus cancelled) s in
      let s := match heap s !! l ≫= cancelFn with
               | Some h => log (CallCancelFn h) s
               | None => s
               end in
      let s := emitEvent i "codegen-cancelled" sessionId NoData s in
      let s := cleanupSession sessionId s in
      let s := setActive (delete sessionId (activeGenerations s)) s in
      (s, true)
  end.

(** [getGenerationStatus] *)
Definition getGenerationStatus (sessionId : string) (s : Store)
    : option GenerationSession :=
  activeGenerations s !! sessionId ≫= fun l => heap s !! l.

(** [new Date(Date.now() - maxAgeMinutes * 60 * 1000)] at time [t]: the time
    value of the date, [None] when the date is invalid. *)
Definition cutoffDate (maxAgeMinutes : Number) (t : Z) : option Z :=
  timeClip (minus (ofInteger t)
              (times (times maxAgeMinutes (ofInteger 60)) (ofInteger 1000))).

(** The condition of the sweep on the session object at [l]:
    [session.startTime < cutoff && session.status !== 'ready'].  The two
    dates are compared by their time values, and the comparison with an
    invalid date is false. *)
Definition isStale (cutoff : option Z) (h : list GenerationSession) (l : nat)
    : bool :=
  match h !! l with
  | Some session =>
      match cutoff with
      | Some c => (startTime session <? c)%Z
      | None => false
      end && negb (Status_eqb (status session) ready)
  | None => false
  end.

(** The body of the loop of [cleanupStaleGenerations]. *)
Definition sweepEntry (cutoff : option Z) (acc : Store * nat) (entry : string * nat)
    : Store * nat :=
  let (s, cleaned) := acc in
  let (sessionId, l) := entry in
  if isStale cutoff (heap s) l then
    (setActive (delete sessionId (activeGenerations s)) (cleanupSession sessionId s),
     S cleaned)
  else (s, cleaned).

(** [cleanupStaleGenerations], called at time [t] (the default of the
    parameter is 30).  The loop visits the entries the registry has when it
    starts and only ever deletes the entry it is visiting.  It visits them in
    the order of [map_to_list], the program in the order of insertion; only
    the order of the calls of [cleanupSession] depends on it. *)
Definition cleanupStaleGenerations (maxAgeMinutes : Number) (t : Z) (s : Store)
    : Store * nat :=
  let cutoff := cutoffDate maxAgeMinutes t in
  foldl (sweepEntry cutoff) (s, 0) (map_to_list (activeGenerations s)).

End CodeGen.

(** ** The conversation server: YAML buffer, phases and approval *)

Module Agent.
Import JsString Extraction CodeGen.

Inductive Phase := ideation | prompt_review | transitioning | code_generation.

Definition Phase_eqb (a b : Phase) : bool :=
  match a, b with
  | ideation, ideation | prompt_review, prompt_review
  | transitioning, transitioning | code_generation, code_generation => true
  | _, _ => false
  end.

(** [interface ConversationState] *)
Record ConversationState := {
  phase : Phase;
  lastYamlPrompt : option string;
  sessionId : option string;
  yamlBuffer : option string
}.

(** [{ phase: 'ideation' }] *)
Definition initialState : ConversationState :=
  {| phase := ideation; lastYamlPrompt := None; sessionId := None;
     yamlBuffer := None |}.

Definition setPhase (p : Phase) (c : ConversationState) : ConversationState :=
  {| phase := p; lastYamlPrompt := lastYamlPrompt c; sessionId := sessionId c;
     yamlBuffer := yamlBuffer c |}.

Definition setLastYamlPrompt (y : option string) (c : ConversationState)
    : ConversationState :=
  {| phase := phase c; lastYamlPrompt := y; sessionId := sessionId c;
     yamlBuffer := yamlBuffer c |}.

Definition setSessionId (i : option string) (c : ConversationState)
    : ConversationState :=
  {| phase := phase c; lastYamlPrompt := lastYamlPrompt c; sessionId := i;
     yamlBuffer := yamlBuffer c |}.

Definition setYamlBuffer (b : option string) (c : ConversationState)
    : ConversationState :=
  {| phase := phase c; lastYamlPrompt := lastYamlPrompt c;
     sessionId := sessionId c; yamlBuffer := b |}.

(** An optional string used as a condition. *)
Definition present (o : option string) : bool :=
  match o with Some v => truthy v | None => false end.

(** [/^\s*-\s+/m.test(s)]: [atLineStart] tells whether the current position
    can be reached from the start of a line through white space only. *)
Fixpoint matchesListItem (atLineStart : bool) (s : string) : bool :=
  match s with
  | EmptyString => false
  | String c s' =>
      atLineStart && Ascii.eqb c "-"%char &&
        match s' with String d _ => isWhiteSpace d | EmptyString => false end
      || matchesListItem (isLineTerminator c || atLineStart && isWhiteSpace c) s'
  end.

(** [\w+:] at the beginning of [s]; [seen] tells whether a word character
    has been read. *)
Fixpoint startsWithKey (seen : bool) (s : string) : bool :=
  match s with
  | EmptyString => false
  | String c s' =>
      if isWordChar c then startsWithKey true s'
      else seen && Ascii.eqb c ":"%char
  end.

(** [/^\s*\w+:\s*.*$/m.test(s)]: behind the colon the rest of the pattern
    always matches. *)
Fixpoint matchesKeyValue (atLineStart : bool) (s : string) : bool :=
  match s with
  | EmptyString => false
  | String c s' =>
      atLineStart && startsWithKey false s
      || matchesKeyValue (isLineTerminator c || atLineStart && isWhiteSpace c) s'
  end.

(** [hasYamlContent] of the handler. *)
Definition hasYamlContent (content : string) : bool :=
  includes content "```yaml" || includes content "project_name:" ||
  includes content "tech_stack:" || includes content "features:" ||
  includes content "users:" || includes content "ui_style:" ||
  includes content "goal:" || includes content "project_description:" ||
  matchesListItem true content || matchesKeyValue true content.

Definition movingOnPhrases : list string :=
  [ "would you like to edit"; "is it ready"; "starting code generation";
    "great!"; "perfect!"; "let me know"; "you're welcome"; "if you're ready" ].

(** [yamlBuffer += '\n' + message.content] *)
Definition appendFragment (buffer content : string) : string :=
  buffer +:+ nl +:+ content.

(** The three places that call [extractYamlFromText] do the same with its
    result: a truthy result becomes [lastYamlPrompt] and the phase is set to
    ['prompt_review']. *)
Definition applyExtraction (text : string) (c : ConversationState)
    : ConversationState :=
  match extractYamlFromText text with
  | Some yamlContent =>
      if truthy yamlContent
      then setPhase prompt_review (setLastYamlPrompt (Some yamlContent) c)
      else c
  | None => c
  end.

(** "Track YAML prompts from assistant": the handling of the content of an
    assistant message. *)
Definition trackYaml (content : string) (c : ConversationState)
    : ConversationState :=
  if includes content "```yaml" then
    setYamlBuffer (Some content) c
  else
    match yamlBuffer c with
    | Some buffer =>
        if truthy buffer then
          if includes content "```" then
            setYamlBuffer None
              (applyExtraction (appendFragment buffer content) c)
          else
            let buffer := appendFragment buffer content in
            let c := setYamlBuffer (Some buffer) c in
            if existsb (fun phrase => includes (toLowerCase content) phrase)
                 movingOnPhrases
            then setYamlBuffer None (applyExtraction buffer c)
            else c
        else applyExtraction content c
    | None => applyExtraction content c
    end.

Definition Z_to_string (z : Z) : string := NilZero.string_of_int (Z.to_int z).

(** [generateSessionId]; [random] is the text produced from [Math.random()]. *)
Definition generateSessionId (t : Z) (random : string) : string :=
  "session-" +:+ Z_to_string t +:+ "-" +:+ random.

(** The whole process: the conversation state and the state of the session
    manager. *)
Record World := {
  conversationState : ConversationState;
  store : Store
}.

(** [if (browserWs?.readyState === WebSocket.OPEN) browserWs.send(...)];
    [None] is a [null] socket. *)
Definition sendIfOpen (browserWs : option bool) (m : BrowserMsg) (s : Store)
    : Store :=
  match browserWs with
  | Some true => log (Send m) s
  | _ => s
  end.

Definition correctiveText : string :=
  "Please generate the complete YAML first before proceeding to build.".

(** The reset of the conversation after a failed generation. *)
Definition resetToIdeation (c : ConversationState) : ConversationState :=
  setSessionId None (setLastYamlPrompt None (setPhase ideation c)).

(** The approved branch up to the call of [startCodeGeneration]: the phase
    passes through ['transitioning'], the session identifier is minted and
    stored, the browser is notified and the phase becomes
    ['code_generation']. *)
Definition beginGeneration (browserWs : option bool) (newId : string)
    (w : World) : World :=
  let c := setPhase transitioning (conversationState w) in
  let c := setSessionId (Some newId) c in
  let s := sendIfOpen browserWs (PhaseTransition "code_generation" newId) (store w) in
  {| conversationState := setPhase code_generation c; store := s |}.

(** The call [await startCodeGeneration(lastYamlPrompt, sessionId, browserWs!)]
    and what follows it: what the call throws is caught by the handler. *)
Definition runGeneration (browserWs : option bool) (t : Z) (yaml newId : string)
    (run : CodegenRun) (w : World) : World :=
  let (s, result) :=
    match browserWs with
    | Some isOpen =>
        startCodeGeneration yaml newId SocketObject
          {| now := t; wsOpen := isOpen |} run (store w)
    | None =>
        startCodeGeneration yaml newId NullSocket
          {| now := t; wsOpen := false |} run (store w)
    end in
  match result with
  | Returned r =>
      if success r then {| conversationState := conversationState w; store := s |}
      else {| conversationState := resetToIdeation (conversationState w); store := s |}
  | Threw _ =>
      {| conversationState := resetToIdeation (conversationState w); store := s |}
  end.

(** The handler of a [ConversationText] message of the agent, at time [t],
    with the browser socket [browserWs]; [random] and [run] are what
    [Math.random] and the code generator produce if they are called. *)
Definition onConversationText (role content : string) (t : Z)
    (browserWs : option bool) (random : string) (run : CodegenRun)
    (w : World) : World :=
  (* forwarding to the browser *)
  let s :=
    if String.eqb role "assistant" then
      if hasYamlContent content then store w
      else sendIfOpen browserWs (Text role content) (store w)
    else sendIfOpen browserWs (Text role content) (store w) in
  (* YAML tracking *)
  let c :=
    if String.eqb role "assistant" then trackYaml content (conversationState w)
    else conversationState w in
  let w := {| conversationState := c; store := s |} in
  (* approval *)
  let isUser := String.eqb role "user" in
  if isUser && Phase_eqb (phase c) prompt_review && present (lastYamlPrompt c)
     && detectYamlApproval content then
    let newId := generateSessionId t random in
    runGeneration browserWs t (default EmptyString (lastYamlPrompt c)) newId run
      (beginGeneration browserWs newId w)
  else if isUser
          && (Phase_eqb (phase c) prompt_review || Phase_eqb (phase c) ideation)
          && detectYamlApproval content then
    {| conversationState := c;
       store := sendIfOpen browserWs (Text "system" correctiveText) s |}
  else w.

End Agent.

(** ** The code generator ([src/utils/openaiCodegen.ts]) *)

Module OpenAICodegen.
Import JsString Extraction CodeGen Agent.

(** [interface GeneratedFile] *)
Record GeneratedFile := { path : string; content : string }.

(** What [JSON.parse] returns, as far as the code looks at it: [null], a
    value whose [files] is an array, or any other value ([files] falsy or not
    an array). *)
Inductive Parsed :=
  | ParsedNull
  | ParsedFiles (files : list GeneratedFile)
  | ParsedOther.

(** How steps 2 to 4 go (creating the directories, writing the files,
    building the file tree): the set-up throws, the file with index [k]
    throws, the tree throws, or all succeed. *)
Inductive FsOutcome :=
  | FsSetupFails (e : Thrown)
  | FsWriteFails (k : nat) (e : Thrown)
  | FsTreeFails (e : Thrown)
  | FsDone (tree : FileNode).

(** What the code generator takes from outside: the process environment, the
    OpenAI client, [JSON.parse], [path.join], the file system and
    [startLocalPreview] (the lines it logs and the [url] of its handle).
    The constant system prompt is part of [createCompletion]. *)
Record Environment := {
  apiKey : option string;                      (* process.env.OPENAI_API_KEY *)
  codegenModel : option string;                (* process.env.OPENAI_CODEGEN_MODEL *)
  cwd : string;                                (* process.cwd() *)
  pathJoin : list string -> string;
  createCompletion : string -> string -> Completion (option string);
      (* model, user prompt: choices[0]?.message?.content *)
  jsonParse : string -> Completion Parsed;
  writeProject : string -> list GeneratedFile -> FsOutcome;
  startLocalPreview : string -> list string * Completion string
}.

(** What a call of [runOpenAICodegen] does, as its caller sees it: the
    callbacks in order, whether the directory of the session was created, and
    how the promise settles. *)
Record Execution := {
  calls : list Callback;
  madeDir : bool;
  result : CodegenOutcome
}.

(** The longest prefix of [s] that ends with a closing brace. *)
Fixpoint uptoLastBrace (s : string) : option string :=
  match s with
  | EmptyString => None
  | String c s' =>
      match uptoLastBrace s' with
      | Some r => Some (String c r)
      | None => if Ascii.eqb c "}"%char then Some (String c EmptyString) else None
      end
  end.

(** [response.match(/\{[\s\S]*\}/)], the whole match: from the first opening
    brace to the last closing brace behind it. *)
Definition matchBraces (response : string) : option string :=
  match cut response "{" with
  | Some (_, rest) =>
      match uptoLastBrace rest with
      | Some r => Some (String "{"%char r)
      | None => None
      end
  | None => None
  end.

(** [s.replace(/PAT\n?/g, '')] for a literal [pat] that is not empty: [skip]
    code units of the current match are still to be dropped, and [pending]
    tells that a match has just ended, so that a line break belongs to it. *)
Fixpoint removeAll (pat : string) (skip : nat) (pending : bool) (s : string)
    : string :=
  match s with
  | EmptyString => EmptyString
  | String c s' =>
      match skip with
      | S k => removeAll pat k (Nat.eqb k 0) s'
      | O =>
          if pending && Ascii.eqb c "010"%char then removeAll pat 0 false s'
          else if startsWith s pat then
            removeAll pat (String.length pat - 1)
              (Nat.eqb (String.length pat - 1) 0) s'
          else String c (removeAll pat 0 false s')
      end
  end.

(** [response.replace(/```json\n?/g, '').replace(/```\n?/g, '').trim()] *)
Definition cleaned (response : string) : string :=
  trim (removeAll "```" 0 false (removeAll "```json" 0 false response)).

Definition userPrompt (yamlPrompt : string) : string :=
  "Generate a complete Next.js application based on this specification:" +:+
  nl +:+ nl +:+ yamlPrompt +:+ nl +:+ nl +:+
  "Return the complete project as JSON with the files array format specified above.".

(** [error instanceof Error ? error.message : 'Unknown error occurred'] *)
Definition errorMessage (e : Thrown) : string :=
  match e with ErrorObject m => m | OtherValue => "Unknown error occurred" end.

(** The inner [try] and [catch]: the first [JSON.parse], and the second one
    on the cleaned response when there is no match or the first one throws. *)
Definition parseFiles (env : Environment) (response : string)
    : list Callback * Completion Parsed :=
  let retry :=
    ([OnLog "Failed to parse JSON, attempting to fix..."],
     jsonParse env (cleaned response)) in
  match matchBraces response with
  | Some json =>
      match jsonParse env json with
      | Returned v => ([], Returned v)
      | Threw _ => retry
      end
  | None => retry
  end.

Definition created (file : GeneratedFile) : Callback :=
  OnLog ("Created: " +:+ path file).

(** The outer [try] block: the callbacks it makes, whether the directory was
    created, and the value returned ([previewUrl], [repoPath]) or the value
    thrown.  An entry of [files] that is not a [GeneratedFile] makes
    [path.join] or [writeFileSync] throw, which is [FsWriteFails].  The last
    log line of the source starts with an emoji and a space, which are outside
    the code units of these strings and are left out; the lines that the
    preview server logs after [startLocalPreview] has returned are not part
    of the call. *)
Definition tryBlock (env : Environment) (model yamlPrompt sessionId : string)
    : list Callback * bool * (string * string + Thrown) :=
  let c1 := [OnLog "Calling OpenAI GPT-4 to generate project files..."] in
  match createCompletion env model (userPrompt yamlPrompt) with
  | Threw e => (c1, false, inr e)
  | Returned response =>
      if negb (present response) then
        (c1, false, inr (ErrorObject "OpenAI returned empty response"))
      else
        let response := default EmptyString response in
        let c2 := c1 ++ [OnLog "Parsing generated files..."] in
        let (c3, parsed) := parseFiles env response in
        match parsed with
        | Threw e => (c2 ++ c3, false, inr e)
        | Returned ParsedNull =>
            (c2 ++ c3, false,
             inr (ErrorObject "Cannot read properties of null (reading 'files')"))
        | Returned ParsedOther =>
            (c2 ++ c3, false,
             inr (ErrorObject "Invalid response format: missing files array"))
        | Returned (ParsedFiles files) =>
            let c4 := c2 ++ c3 ++
              [OnLog ("Generated " +:+ Z_to_string (Z.of_nat (length files)) +:+
                      " files. Creating project structure...")] in
            let genDir := pathJoin env [cwd env; "generated"; sessionId] in
            let repoDir := pathJoin env [genDir; "repo"] in
            match writeProject env genDir files with
            | FsSetupFails e => (c4, false, inr e)
            | FsWriteFails k e => (c4 ++ map created (take k files), true, inr e)
            | FsTreeFails e => (c4 ++ map created files, true, inr e)
            | FsDone tree =>
                let c5 := c4 ++ map created files ++
                  [OnFileTree tree;
                   OnLog "Project structure created successfully!";
                   OnLog "Starting local development server..."] in
                let (logs, handle) := startLocalPreview env repoDir in
                match handle with
                | Threw e => (c5 ++ map OnLog logs, true, inr e)
                | Returned url =>
                    (c5 ++ map OnLog logs ++
                       [OnPreviewReady url;
                        OnLog ("Preview ready at: " +:+ url)],
                     true, inl (url, repoDir))
                end
            end
        end
  end.

(** [runOpenAICodegen], called with all four callbacks, as
    [startCodeGeneration] does. *)
Definition runOpenAICodegen (env : Environment) (yamlPrompt sessionId : string)
    : Execution :=
  if negb (present (apiKey env)) then
    {| calls := []; madeDir := false;
       result := Rejected (ErrorObject "Missing OPENAI_API_KEY environment variable") |}
  else
    let model := if present (codegenModel env)
                 then default EmptyString (codegenModel env) else "gpt-5" in
    let c0 := [OnLog ("Starting OpenAI code generation with model: " +:+ model +:+ " ...")] in
    match tryBlock env model yamlPrompt sessionId with
    | (c, dir, inl (url, repoDir)) =>
        {| calls := c0 ++ c; madeDir := dir; result := Resolved url repoDir |}
    | (c, dir, inr e) =>
        {| calls := c0 ++ c ++ [OnError (errorMessage e)]; madeDir := dir;
           result := Rejected e |}
    end.

(** The execution as a run for [startCodeGeneration]: the callback with
    index [k] happens at the instant [clock k], the promise settles at
    [settledAt], and removing the directory of the session does not throw. *)
Definition asRun (clock : nat -> Instant) (settledAt : Instant) (ex : Execution)
    : CodegenRun :=
  {| callbacks := combine (map clock (seq 0 (length (calls ex)))) (calls ex);
     createsDir := madeDir ex;
     settled := settledAt;
     outcome := result ex;
     cleanupError := None |}.

End OpenAICodegen.

(** ** The server ([src/agents/codeGen.ts], the browser connections) *)

Module Server.
Import JsString Extraction CodeGen Agent.

(** The handler of [wss.on('connection')], as far as it changes the state of
    the conversation and the session manager: the conversation starts again
    with [{ phase: 'ideation' }]; the registry is not touched. *)
Definition onConnection (w : World) : World :=
  {| conversationState := initialState; store := store w |}.

(** What happens to the server: a browser connects, or the agent delivers a
    [ConversationText] message (with the time, the state of the browser
    socket, and what [Math.random] and the code generator produce if they are
    called).  The other messages of the agent, and the audio in both
    directions, change neither the conversation nor the session manager. *)
Inductive ServerEvent :=
  | BrowserConnects
  | AgentSays (role content : string) (t : Z) (browserWs : option bool)
      (random : string) (run : CodegenRun).

Definition serve (w : World) (e : ServerEvent) : World :=
  match e with
  | BrowserConnects => onConnection w
  | AgentSays role content t browserWs random run =>
      onConversationText role content t browserWs random run w
  end.

End Server.

(** ** Vocabulary of the properties and example data *)

Import JsString JsNumber Extraction CodeGen Agent.

Definition isSubstring (sub s : string) : Prop :=
  exists before after, s = before +:+ sub +:+ after.

(** A text made of white space only. *)
Fixpoint allWhiteSpace (s : string) : bool :=
  match s with
  | EmptyString => true
  | String c s' => isWhiteSpace c && allWhiteSpace s'
  end.

(** The other case of a letter that has both cases below 256: A-Z and a-z,
    U+00C0..U+00DE and U+00E0..U+00FE without the signs U+00D7 and U+00F7.
    Any other code unit is left alone. *)
Definition swapLetterCase (c : ascii) : ascii :=
  let n := N_of_ascii c in
  if isUpper c then ascii_of_N (n + 32)
  else if ((97 <=? n) && (n <=? 122) || (224 <=? n) && (n <=? 246)
           || (248 <=? n) && (n <=? 254))%N then ascii_of_N (n - 32)
  else c.

(** [caseVariant s s']: [s'] is [s] with the case of some of its letters
    changed. *)
Inductive caseVariant : string -> string -> Prop :=
  | cv_nil : caseVariant EmptyString EmptyString
  | cv_same c s s' : caseVariant s s' -> caseVariant (String c s) (String c s')
  | cv_swap c s s' :
      caseVariant s s' -> caseVariant (String c s) (String (swapLetterCase c) s').

(** [s.toUpperCase()] where the result stays below 256: a-z and
    U+00E0..U+00FE without the division sign U+00F7 become the code unit 32
    below, the sharp s U+00DF becomes [SS], and any other code unit stays;
    [None] when [s] holds the micro sign U+00B5 or U+00FF, whose upper-case
    forms U+039C and U+0178 lie outside the range. *)
Fixpoint toUpperCase (s : string) : option string :=
  match s with
  | EmptyString => Some EmptyString
  | String c s' =>
      let n := N_of_ascii c in
      match toUpperCase s' with
      | Some r =>
          if ((n =? 181) || (n =? 255))%N then None
          else if (n =? 223)%N then Some ("SS" +:+ r)
          else if ((97 <=? n) && (n <=? 122) || (224 <=? n) && (n <=? 246)
                   || (248 <=? n) && (n <=? 254))%N
               then Some (String (ascii_of_N (n - 32)) r)
          else Some (String c r)
      | None => None
      end
  end.

(** The text [ye] followed by the sharp s, U+00DF. *)
Definition yesWithSharpS : string := "ye" +:+ String "223"%char EmptyString.

(** The seven keys of a complete specification. *)
Definition requiredKeys : list string :=
  [ "project_name:"; "project_description:"; "users:"; "goal:";
    "features:"; "tech_stack:"; "ui_style:" ].

(** The number of messages produced for a checked key. *)
Definition missing (y key : string) : nat :=
  if includes y key then 0 else 1.

(** A text without any fence that has five of the seven keys. *)
Definition incompleteSpec : string :=
  "project_name: a" +:+ nl +:+ "users: u" +:+ nl +:+ "goal: g" +:+ nl +:+
  "features: f" +:+ nl +:+ "tech_stack: t".

(** The seven lines of a complete specification. *)
Definition completeBody : string :=
  "project_name: A" +:+ nl +:+ "project_description: d" +:+ nl +:+
  "users: [x]" +:+ nl +:+ "goal: [g]" +:+ nl +:+ "features: [f]" +:+ nl +:+
  "tech_stack:" +:+ nl +:+ "  frontend: y" +:+ nl +:+ "ui_style: s".

(** The complete specification in a fenced block with the [yaml] tag. *)
Definition wholeBlock : string :=
  "```yaml" +:+ nl +:+ completeBody +:+ nl +:+ "```".

(** [wholeBlock] cut in two behind [project_na]. *)
Definition fragment1 : string := "```yaml" +:+ nl +:+ "project_na".

Definition fragment2 : string :=
  "me: A" +:+ nl +:+ "project_description: d" +:+ nl +:+
  "users: [x]" +:+ nl +:+ "goal: [g]" +:+ nl +:+ "features: [f]" +:+ nl +:+
  "tech_stack:" +:+ nl +:+ "  frontend: y" +:+ nl +:+ "ui_style: s" +:+ nl +:+ "```".

(** The complete specification in a fenced block without tag. *)
Definition genericBlock : string :=
  "```" +:+ nl +:+ completeBody +:+ nl +:+ "```".

(** The text on which the handler runs the extraction while it processes the
    assistant message [content] in state [c], if it runs one. *)
Definition extractionInput (content : string) (c : ConversationState)
    : option string :=
  if includes content "```yaml" then None
  else if present (yamlBuffer c) then
    let block := appendFragment (default EmptyString (yamlBuffer c)) content in
    if includes content "```" then Some block
    else if existsb (fun phrase => includes (toLowerCase content) phrase)
              movingOnPhrases
         then Some block else None
  else Some content.

Definition emptyStore : Store :=
  {| heap := []; activeGenerations := ∅; generated := ∅; trace := [] |}.

Definition initialWorld : World :=
  {| conversationState := initialState; store := emptyStore |}.

(** A run of the code generator that succeeds, as
    [src/utils/openaiCodegen.ts] performs it: log lines, the file tree, the
    preview, and the resolved promise. *)
Definition successfulRun : CodegenRun :=
  let i := {| now := 5000; wsOpen := true |} in
  {| callbacks :=
       [ (i, OnLog "Calling OpenAI GPT-4 to generate project files...");
         (i, OnFileTree (Node "repo" "generated/s/repo" (Some [])));
         (i, OnLog "Starting local development server...");
         (i, OnPreviewReady "http://localhost:4000");
         (i, OnLog "Preview ready") ];
     createsDir := true;
     settled := i;
     outcome := Resolved "http://localhost:4000" "generated/s/repo";
     cleanupError := None |}.

(** A run of the code generator that fails after its first log line. *)
Definition failingRun : CodegenRun :=
  let i := {| now := 5000; wsOpen := true |} in
  {| callbacks :=
       [ (i, OnLog "Calling OpenAI GPT-4 to generate project files...");
         (i, OnError "OpenAI returned empty response") ];
     createsDir := false;
     settled := i;
     outcome := Rejected (ErrorObject "OpenAI returned empty response");
     cleanupError := None |}.

(** Outside the phase [ideation] a specification is bound. *)
Definition specBound (c : ConversationState) : Prop :=
  phase c = ideation \/ present (lastYamlPrompt c) = true.

(** The phases in which an approval without specification is answered. *)
Definition answersApproval (p : Phase) : bool :=
  Phase_eqb p prompt_review || Phase_eqb p ideation.

(** The conversation after the assistant has given a complete specification
    and the user has approved it, the generation having succeeded. *)
Definition afterReview : World :=
  onConversationText "assistant" genericBlock 1000 (Some true) "k3j9x2m1p"
    successfulRun initialWorld.

Definition afterApproval : World :=
  onConversationText "user" "yes" 2000 (Some true) "k3j9x2m1p"
    successfulRun afterReview.

(** What one call of [emitEvent] adds to the trace. *)
Definition emitted (i : Instant) (type sessionId : string) (data : EventData)
    : list Effect :=
  EmitEvent type sessionId data ::
  (if wsOpen i then [Send (Event type sessionId (now i) data)] else []).

(** The session object that [startCodeGeneration] creates, with [st] for its
    status. *)
Definition newSession (st : Status) (yaml : string) (t : Z) : GenerationSession :=
  {| status := st; startTime := t; yamlPrompt := Some yaml;
     previewUrl := None; repoPath := None; cancelFn := None |}.

(** The message of the [Error] thrown for a prompt that fails validation. *)
Definition validationMessage (yaml : string) : string :=
  "YAML validation failed: " +:+
  String.concat ", " (errors (validateYamlPrompt yaml)).

Definition failure (message : string) : GenResult :=
  {| success := false; resultPreviewUrl := None; resultError := Some message |}.

Definition messageOf (e : Thrown) : string :=
  match e with ErrorObject m => m | OtherValue => "Unknown error occurred" end.

(** The effect of one callback on the session object it closes over. *)
Definition sessionAfterCallback (g : GenerationSession)
    (ic : Instant * Callback) : GenerationSession :=
  match snd ic with
  | OnPreviewReady url => setPreviewUrl url (setStatus ready g)
  | OnError _ => setStatus error g
  | _ => g
  end.





(** The identifiers of the stale entries of a list of entries. *)
Fixpoint staleIds (cutoff : option Z) (h : list GenerationSession)
    (es : list (string * nat)) : list string :=
  match es with
  | [] => []
  | (k, l) :: es' =>
      if isStale cutoff h l then k :: staleIds cutoff h es'
      else staleIds cutoff h es'
  end.





(** The scenario of the specification: at minute 40, one session started at
    minute 0 and one at minute 35, both [generating]. *)
Definition sweepScenario : Store :=
  {| heap := [newSession generating "a" 0; newSession generating "b" 2100000];
     activeGenerations := <["old" := 0]> (<["young" := 1]> ∅);
     generated := {["old"; "young"]};
     trace := [] |}.

(** At minute 40, a session started at minute 0 that is [ready]. *)
Definition readyScenario : Store :=
  {| heap := [setStatus ready (newSession starting "a" 0)];
     activeGenerations := <["old" := 0]> ∅;
     generated := {["old"]};
     trace := [] |}.

(** ** Further vocabulary: the extraction engine *)

(** The five keys that both extraction paths need in the text. *)
Definition scanKeys : list string :=
  [ "project_name:"; "features:"; "tech_stack:"; "users:"; "goal:" ].

(** A text without backtick. *)
Fixpoint noBacktick (s : string) : bool :=
  match s with
  | EmptyString => true
  | String c s' => negb (Ascii.eqb c "`"%char) && noBacktick s'
  end.

(** ** Further vocabulary: the YAML buffer *)

(** [movingOnPhrases.some(...)] on the content of a message. *)
Definition movesOn (content : string) : bool :=
  existsb (fun phrase => includes (toLowerCase content) phrase) movingOnPhrases.

(** A fragment that extends an open block: it has no fence and no moving-on
    phrase. *)
Definition extendsBlock (m : string) : bool :=
  negb (includes m "```") && negb (movesOn m).

(** A fragment that ends an open block: it has a fence or a moving-on phrase,
    and it does not open a new block. *)
Definition closesBlock (f : string) : bool :=
  negb (includes f "```yaml") && (includes f "```" || movesOn f).

(** The assistant messages [ms] processed in order. *)
Definition feed (ms : list string) (c : ConversationState) : ConversationState :=
  foldl (fun c m => trackYaml m c) c ms.

(** ** Further vocabulary: the session manager *)

(** Every entry of the registry refers to a session object, and two
    identifiers never share one. *)
Definition wellFormed (s : Store) : Prop :=
  (forall sid l, activeGenerations s !! sid = Some l -> l < length (heap s)) /\
  (forall sid1 sid2 l,
     activeGenerations s !! sid1 = Some l ->
     activeGenerations s !! sid2 = Some l -> sid1 = sid2).

(** What one callback of the code generator adds to the trace. *)
Definition callbackEffects (sessionId : string) (ic : Instant * Callback)
    : list Effect :=
  match snd ic with
  | OnLog chunk => emitted (fst ic) "codegen-log" sessionId (LogData chunk)
  | OnFileTree tree =>
      emitted (fst ic) "codegen-file-tree" sessionId (FileTreeData tree)
  | OnPreviewReady url =>
      emitted (fst ic) "codegen-preview-ready" sessionId (PreviewReadyData url)
  | OnError message =>
      emitted (fst ic) "codegen-error" sessionId (ErrorData message None)
  end.

(** The directories that exist when the code generator has settled. *)
Definition dirsAfterRun (sessionId : string) (run : CodegenRun) (s : Store)
    : gset string :=
  if createsDir run then generated s ∪ {[sessionId]} else generated s.

(** The [TypeError] of reading [readyState] from [null]. *)
Definition nullSocketError : Thrown :=
  ErrorObject "Cannot read properties of null (reading 'readyState')".

(** The prompt that is handed to the code generator. *)
Definition processedPrompt (yaml : string) : string :=
  if includes yaml "ui_style:" then yaml
  else yaml +:+ nl +:+ "ui_style: Clean and modern".

(** The last event of a generation that has called the code generator, with
    what follows it. *)
Definition finalEffects (sessionId : string) (started : Z) (run : CodegenRun)
    : list Effect :=
  match outcome run with
  | Resolved url path =>
      emitted (settled run) "codegen-complete" sessionId
        (CompleteData url path (now (settled run) - started)%Z)
  | Rejected e =>
      emitted (settled run) "codegen-error" sessionId
        (ErrorData (messageOf e) (Some (now (settled run) - started)%Z))
      ++ [CleanupSession sessionId]
  end.

Definition isSend (e : Effect) : bool :=
  match e with Send _ => true | _ => false end.

(** An instant, and a run of the code generator, with the browser socket
    closed throughout. *)
Definition closedAt (i : Instant) : Instant := {| now := now i; wsOpen := false |}.

Definition closedRun (run : CodegenRun) : CodegenRun :=
  {| callbacks := map (fun ic => (closedAt (fst ic), snd ic)) (callbacks run);
     createsDir := createsDir run;
     settled := closedAt (settled run);
     outcome := outcome run;
     cleanupError := cleanupError run |}.

(** A generation succeeds when the prompt passes validation and the promise
    of the code generator is resolved. *)
Definition generationSucceeds (yaml : string) (run : CodegenRun) : bool :=
  isValid (validateYamlPrompt yaml) &&
  match outcome run with Resolved _ _ => true | Rejected _ => false end.

(** *** The code generator *)

Import OpenAICodegen.

Definition isProgress (c : Callback) : bool :=
  match c with OnLog _ | OnFileTree _ => true | _ => false end.

Definition isOnError (c : Callback) : bool :=
  match c with OnError _ => true | _ => false end.

(** [process.env.OPENAI_CODEGEN_MODEL || 'gpt-5'] *)
Definition modelOf (env : Environment) : string :=
  if present (codegenModel env)
  then default EmptyString (codegenModel env) else "gpt-5".

(** The [repoDir] of a session. *)
Definition repoDirOf (env : Environment) (sessionId : string) : string :=
  pathJoin env [pathJoin env [cwd env; "generated"; sessionId]; "repo"].

(** A call of [emitEvent] with the type [codegen-error]. *)
Definition isErrorEvent (e : Effect) : bool :=
  match e with
  | EmitEvent type _ _ => String.eqb type "codegen-error"
  | _ => false
  end.

(** The text [{"files":[]}]. *)
Definition emptyProject : string :=
  let q := String (ascii_of_nat 34) EmptyString in
  "{" +:+ q +:+ "files" +:+ q +:+ ":[]}".

(** An environment in which the model answers with [response], [JSON.parse]
    accepts [emptyProject] only, and the file system and the preview work. *)
Definition exampleEnvironment (key response : option string) : Environment :=
  {| apiKey := key;
     codegenModel := None;
     cwd := "/app";
     pathJoin := String.concat "/";
     createCompletion := fun _ _ => Returned response;
     jsonParse := fun json =>
       if String.eqb json emptyProject then Returned (ParsedFiles [])
       else Threw (ErrorObject "Unexpected token in JSON");
     writeProject := fun dir _ => FsDone (Node "repo" (dir +:+ "/repo") (Some []));
     startLocalPreview := fun _ => (["ready"], Returned "http://localhost:4000") |}.

Definition exampleClock (k : nat) : Instant :=
  {| now := 3000 + Z.of_nat k; wsOpen := true |}.

(** *** Phrases and white space *)

(** The last code unit of [s] exists and is not white space. *)
Fixpoint lastSolid (s : string) : bool :=
  match s with
  | EmptyString => false
  | String c EmptyString => negb (isWhiteSpace c)
  | String _ s' => lastSolid s'
  end.

(** [s] is not empty and neither begins nor ends with white space. *)
Definition solid (s : string) : bool :=
  match s with
  | EmptyString => false
  | String c _ => negb (isWhiteSpace c) && lastSolid s
  end.

(** *** The server as a whole *)

Import Server.

(** A prompt with the three keys that the validation asks for, and with a
    [ui_style] key. *)
Definition completePrompt (p : string) : bool :=
  includes p "project_name:" && includes p "features:" &&
  includes p "tech_stack:" && includes p "ui_style:".

(** An effect other than a call of the code generator, or a call of it with a
    complete prompt and a minted session identifier. *)
Definition okEffect (e : Effect) : bool :=
  match e with
  | RunCodegen (Some p) sid => completePrompt p && startsWith sid "session-"
  | RunCodegen None _ => false
  | _ => true
  end.

(** A text without the code unit [c]. *)
Fixpoint lacks (c : ascii) (s : string) : bool :=
  match s with
  | EmptyString => true
  | String d s' => negb (Ascii.eqb d c) && lacks c s'
  end.

(** An answer of the model that consists of one fenced block. *)
Definition fencedJson (json : string) : string :=
  "```json" +:+ nl +:+ json +:+ nl +:+ "```".

(** *** Words *)

Fixpoint wordChars (s : string) : bool :=
  match s with
  | EmptyString => true
  | String c s' => isWordChar c && wordChars s'
  end.

(** A non-empty text of word characters ([\w+]). *)
Definition isWord (s : string) : bool := truthy s && wordChars s.

(** * Properties *)

(** ** Facts about the string operations *)

Lemma startsWith_spec (s sub : string) :
  startsWith s sub = true <-> exists after, s = sub +:+ after.
Proof.
  revert s. induction sub as [|a sub IH]; intros s; simpl.
  - split; [exists s; reflexivity | destruct s; reflexivity].
  - destruct s as [|b s].
    + split; [discriminate | intros [x Hx]; discriminate].
    + simpl. rewrite andb_true_iff, IH. split.
      * intros [Hab [x ->]]. apply Ascii.eqb_eq in Hab. subst. now exists x.
      * intros [x Hx]. injection Hx as -> ->. split; [apply Ascii.eqb_refl | now exists x].
Qed.

Lemma includes_spec (s sub : string) :
  includes s sub = true <-> isSubstring sub s.
Proof.
  unfold isSubstring. induction s as [|c s IH].
  - cbn [includes]. rewrite orb_false_r, startsWith_spec. split.
    + intros [x Hx]. exists EmptyString, x. exact Hx.
    + intros [a [b Hab]]. destruct a; [now exists b | discriminate].
  - cbn [includes]. rewrite orb_true_iff, startsWith_spec, IH. split.
    + intros [[x Hx] | [a [b Hab]]].
      * exists EmptyString, x. exact Hx.
      * exists (String c a), b. simpl. now rewrite Hab.
    + intros [a [b Hab]]. destruct a as [|c' a].
      * left. now exists b.
      * right. simpl in Hab. injection Hab as -> ->. now exists a, b.
Qed.

Lemma append_String (c : ascii) (a b : string) :
  String c a +:+ b = String c (a +:+ b).
Proof. reflexivity. Qed.

Lemma startsWith_dropLen (s sub : string) :
  startsWith s sub = true -> s = sub +:+ dropLen sub s.
Proof.
  revert s. induction sub as [|a sub IH]; intros [|b s]; cbn; try reflexivity;
    try discriminate.
  rewrite andb_true_iff. intros [Hab Hs]. apply Ascii.eqb_eq in Hab. subst b.
  rewrite append_String. f_equal. now apply IH.
Qed.

(** [cut] finds an occurrence of [sub], *)
Lemma cut_sound (s sub before after : string) :
  cut s sub = Some (before, after) -> s = before +:+ sub +:+ after.
Proof.
  revert before. induction s as [|c s IH]; intros before; cbn [cut].
  - destruct (startsWith "" sub) eqn:E; [|discriminate].
    intros [= <- <-]. now apply startsWith_dropLen.
  - destruct (startsWith (String c s) sub) eqn:E.
    + intros [= <- <-]. now apply startsWith_dropLen.
    + destruct (cut s sub) as [[b a]|]; [|discriminate].
      intros [= <- <-]. rewrite append_String. f_equal. now apply IH.
Qed.

(** the leftmost one, *)
Lemma cut_leftmost (s sub before after : string) :
  cut s sub = Some (before, after) ->
  forall before' after', s = before' +:+ sub +:+ after' ->
  String.length before <= String.length before'.
Proof.
  revert before. induction s as [|c s IH]; intros before; cbn [cut].
  - destruct (startsWith "" sub); [|discriminate].
    intros [= <- <-] b' a' _. cbn. lia.
  - destruct (startsWith (String c s) sub) eqn:E.
    + intros [= <- <-] b' a' _. cbn. lia.
    + destruct (cut s sub) as [[b a]|] eqn:Ec; [|discriminate].
      intros [= <- <-] b' a' Hs. destruct b' as [|c' b'].
      * assert (startsWith (String c s) sub = true)
          by (apply startsWith_spec; now exists a').
        congruence.
      * rewrite append_String in Hs. injection Hs as -> Hs. cbn.
        specialize (IH b eq_refl b' a' Hs). lia.
Qed.

(** and fails only when there is none. *)
Lemma cut_none (s sub : string) :
  cut s sub = None <-> includes s sub = false.
Proof.
  induction s as [|c s IH]; cbn [cut includes].
  - destruct (startsWith "" sub); cbn; split; congruence.
  - destruct (startsWith (String c s) sub); cbn; [split; congruence|].
    rewrite <- IH. destruct (cut s sub) as [[b a]|]; split; congruence.
Qed.

(** The capture group of [/OPENING([\s\S]*?)CLOSING/]: the text is cut at the
    leftmost [opening], and the group is the shortest text behind it that is
    followed by [closing]. *)
Lemma matchBetween_spec (opening closing text g : string) :
  matchBetween opening closing text = Some g ->
  exists before after,
    text = before +:+ opening +:+ g +:+ closing +:+ after /\
    (forall before' rest', text = before' +:+ opening +:+ rest' ->
       String.length before <= String.length before') /\
    (forall g' after', g +:+ closing +:+ after = g' +:+ closing +:+ after' ->
       String.length g <= String.length g').
Proof.
  unfold matchBetween.
  destruct (cut text opening) as [[before rest]|] eqn:E1; [|discriminate].
  destruct (cut rest closing) as [[inner after]|] eqn:E2; [|discriminate].
  intros [= <-]. exists before, after.
  pose proof (cut_sound _ _ _ _ E1) as H1.
  pose proof (cut_sound _ _ _ _ E2) as H2.
  split; [now rewrite H1, H2|]. split.
  - apply (cut_leftmost _ _ _ _ E1).
  - intros g' after' Heq. apply (cut_leftmost _ _ _ _ E2 g' after').
    now rewrite H2.
Qed.

Lemma toLowerCase_app (a b : string) :
  toLowerCase (a +:+ b) = toLowerCase a +:+ toLowerCase b.
Proof. induction a as [|c a IH]; simpl; [reflexivity | now rewrite IH]. Qed.

Lemma lowerChar_whiteSpace (c : ascii) :
  isWhiteSpace c = true -> lowerChar c = c.
Proof.
  destruct c as [[] [] [] [] [] [] [] []]; vm_compute; congruence.
Qed.

Lemma toLowerCase_whiteSpace (ws : string) :
  allWhiteSpace ws = true -> toLowerCase ws = ws.
Proof.
  induction ws as [|c ws IH]; simpl; [reflexivity|].
  rewrite andb_true_iff. intros [Hc Hws].
  now rewrite lowerChar_whiteSpace, IH.
Qed.

Lemma trimStart_whiteSpace_app (ws s : string) :
  allWhiteSpace ws = true -> trimStart (ws +:+ s) = trimStart s.
Proof.
  induction ws as [|c ws IH]; simpl; [reflexivity|].
  rewrite andb_true_iff. intros [-> Hws]. now apply IH.
Qed.

Lemma trimEnd_whiteSpace (ws : string) :
  allWhiteSpace ws = true -> trimEnd ws = EmptyString.
Proof.
  induction ws as [|c ws IH]; simpl; [reflexivity|].
  rewrite andb_true_iff. intros [-> Hws]. now rewrite IH.
Qed.

Lemma trimEnd_app_whiteSpace (s ws : string) :
  allWhiteSpace ws = true -> trimEnd (s +:+ ws) = trimEnd s.
Proof.
  intros Hws. induction s as [|c s IH]; simpl.
  - now apply trimEnd_whiteSpace.
  - now rewrite IH.
Qed.

Lemma trimStart_all_or_app (s ws : string) :
  allWhiteSpace ws = true ->
  (trimStart s = EmptyString /\ allWhiteSpace (trimStart (s +:+ ws)) = true) \/
  trimStart (s +:+ ws) = trimStart s +:+ ws.
Proof.
  intros Hws. induction s as [|c s IH]; simpl.
  - left. split; [reflexivity|].
    clear -Hws. induction ws as [|c ws IH]; simpl in *; [reflexivity|].
    apply andb_true_iff in Hws as [-> Hws]. now apply IH.
  - destruct (isWhiteSpace c); [exact IH | now right].
Qed.

Lemma trim_whiteSpace_around (ws1 s ws2 : string) :
  allWhiteSpace ws1 = true -> allWhiteSpace ws2 = true ->
  trim (ws1 +:+ s +:+ ws2) = trim s.
Proof.
  intros H1 H2. unfold trim. rewrite trimStart_whiteSpace_app by assumption.
  destruct (trimStart_all_or_app s ws2 H2) as [[Hs Hall] | Happ].
  - rewrite Hs. simpl. now apply trimEnd_whiteSpace.
  - rewrite Happ. now apply trimEnd_app_whiteSpace.
Qed.

Lemma lowerChar_swapLetterCase (c : ascii) :
  lowerChar (swapLetterCase c) = lowerChar c.
Proof.
  destruct c as [[] [] [] [] [] [] [] []]; vm_compute; reflexivity.
Qed.

Lemma toLowerCase_caseVariant (s s' : string) :
  caseVariant s s' -> toLowerCase s' = toLowerCase s.
Proof.
  induction 1; simpl; [reflexivity | now rewrite IHcaseVariant |].
  now rewrite lowerChar_swapLetterCase, IHcaseVariant.
Qed.

(** ** The approval detector *)

(** C7 (amended).  On messages of code units below 256:
    [detectYamlApproval m] is [true] exactly when the lower-cased and trimmed
    form of [m] contains one of the configured approval phrases as a
    substring.  Its result does not change when letters of [m] are exchanged
    for their other case, for the letters whose two cases are single code
    units below 256 (A-Z and a-z, U+00C0..U+00DE and U+00E0..U+00FE without
    the two signs), nor when white space is added in front of or behind [m],
    and it is [false] for every text whose normal form contains none of the
    phrases. *)
Theorem detectYamlApproval_iff_phrase :
  (forall m, detectYamlApproval m = true <->
     exists phrase, In phrase approvalPhrases /\
                    isSubstring phrase (trim (toLowerCase m))) /\
  (forall m m', caseVariant m m' ->
     detectYamlApproval m' = detectYamlApproval m) /\
  (forall ws1 m ws2, allWhiteSpace ws1 = true -> allWhiteSpace ws2 = true ->
     detectYamlApproval (ws1 +:+ m +:+ ws2) = detectYamlApproval m) /\
  (forall m,
     (forall phrase, In phrase approvalPhrases ->
                     ~ isSubstring phrase (trim (toLowerCase m))) ->
     detectYamlApproval m = false).
Proof.
  assert (Hiff : forall m, detectYamlApproval m = true <->
     exists phrase, In phrase approvalPhrases /\
                    isSubstring phrase (trim (toLowerCase m))).
  { intros m. unfold detectYamlApproval. rewrite existsb_exists.
    split; intros [p [Hin Hp]]; exists p; split; try assumption;
      now apply includes_spec. }
  split; [exact Hiff|]. split; [|split].
  - intros m m' Hcv. unfold detectYamlApproval.
    now rewrite (toLowerCase_caseVariant m m' Hcv).
  - intros ws1 m ws2 H1 H2. unfold detectYamlApproval.
    rewrite !toLowerCase_app, (toLowerCase_whiteSpace ws1 H1),
      (toLowerCase_whiteSpace ws2 H2).
    now rewrite trim_whiteSpace_around.
  - intros m Hnone. destruct (detectYamlApproval m) eqn:E; [|reflexivity].
    apply Hiff in E as [p [Hin Hp]]. now destruct (Hnone p Hin).
Qed.

Lemma detectYamlApproval_iff_phrase_witness :
  allWhiteSpace "  " = true /\
  detectYamlApproval ("  " +:+ "Yes, go" +:+ "  ") = detectYamlApproval "Yes, go".
Proof.
  split; [reflexivity|].
  apply (proj1 (proj2 (proj2 detectYamlApproval_iff_phrase))); reflexivity.
Defined.

(** C7 (counterexample).  The result is not invariant under every change of
    letter case: [ye] followed by the sharp s is not an approval, and its
    upper-case form [YESS] is one. *)
Lemma upper_case_of_sharp_s_approves :
  toUpperCase yesWithSharpS = Some "YESS" /\
  detectYamlApproval yesWithSharpS = false /\
  detectYamlApproval "YESS" = true.
Proof. repeat split; vm_compute; reflexivity. Qed.

(** ** Pre-validation of the YAML prompt *)

(** C10.  [validateYamlPrompt y] is valid exactly when [y] contains the three
    keys [project_name:], [features:] and [tech_stack:].  When valid, there
    are no errors and the processed text is [y], with the line
    [ui_style: Clean and modern] appended when [y] does not contain
    [ui_style:] and unchanged when it does.  When invalid, there is no
    processed text and the errors hold exactly one message per missing
    checked key. *)
Theorem validateYamlPrompt_spec (y : string) :
  let v := validateYamlPrompt y in
  (isValid v = true <->
     includes y "project_name:" = true /\ includes y "features:" = true /\
     includes y "tech_stack:" = true) /\
  (isValid v = true ->
     errors v = [] /\
     processed v =
       Some (if includes y "ui_style:" then y
             else y +:+ nl +:+ "ui_style: Clean and modern")) /\
  (isValid v = false -> processed v = None) /\
  length (errors v) =
    missing y "project_name:" + missing y "features:" + missing y "tech_stack:" /\
  (In "Missing required field: project_name" (errors v) <->
     includes y "project_name:" = false) /\
  (In "Missing required field: features" (errors v) <->
     includes y "features:" = false) /\
  (In "Missing required field: tech_stack" (errors v) <->
     includes y "tech_stack:" = false).
Proof.
  unfold validateYamlPrompt, missing; cbn zeta.
  destruct (includes y "project_name:"), (includes y "features:"),
    (includes y "tech_stack:"); cbn;
    repeat split; try congruence; try tauto; try discriminate;
    intuition (try discriminate; try congruence).
Qed.

Lemma validateYamlPrompt_spec_witness :
  processed (validateYamlPrompt "project_name: a, features: f, tech_stack: t") =
  Some ("project_name: a, features: f, tech_stack: t" +:+ nl +:+
        "ui_style: Clean and modern").
Proof.
  apply (proj1 (proj2 (validateYamlPrompt_spec
           "project_name: a, features: f, tech_stack: t"))).
  reflexivity.
Defined.

(** ** The extraction engine *)

Lemma tryPatterns_hasAllFields (ps : list Pattern) (text y : string) :
  tryPatterns ps text = Some y -> hasAllFields y = true.
Proof.
  induction ps as [|p ps IH]; simpl; [discriminate|].
  destruct (matchGroup1 p text) as [g|]; [|exact IH].
  destruct (truthy g); [|exact IH].
  destruct (hasAllFields (trim g)) eqn:E; [|exact IH].
  now intros [= <-].
Qed.

Lemma hasAllFields_requiredKeys (y : string) :
  hasAllFields y = true <-> forall key, In key requiredKeys -> includes y key = true.
Proof.
  unfold hasAllFields, requiredKeys. rewrite !andb_true_iff. cbn [In]. split.
  - intros H key Hk. intuition (subst; assumption).
  - intros H. repeat split; apply H; tauto.
Qed.

(** What the fenced patterns return has all seven keys; any other result
    comes from the scan for YAML without code blocks. *)
Lemma extractYamlFromText_cases (text y : string) :
  extractYamlFromText text = Some y ->
  (tryPatterns patterns text = Some y /\
   forall key, In key requiredKeys -> includes y key = true) \/
  (tryPatterns patterns text = None /\ fallbackScan text = Some y).
Proof.
  unfold extractYamlFromText.
  destruct (tryPatterns patterns text) as [y'|] eqn:E.
  - intros [= <-]. left. split; [reflexivity|].
    apply hasAllFields_requiredKeys. now apply tryPatterns_hasAllFields in E.
  - intros H. now right.
Qed.

(** C1 (the code departs from the claim).  [incompleteSpec] has no fence and
    contains neither [project_description:] nor [ui_style:]; the scan for
    YAML without code blocks nevertheless returns it, where the claim
    requires [null]. *)
Theorem extractYamlFromText_fallback_incomplete :
  extractYamlFromText incompleteSpec = Some incompleteSpec /\
  tryPatterns patterns incompleteSpec = None /\
  includes incompleteSpec "project_description:" = false /\
  includes incompleteSpec "ui_style:" = false.
Proof. vm_compute. repeat split. Qed.

Example extract_wholeBlock : extractYamlFromText wholeBlock = Some completeBody.
Proof. vm_compute. reflexivity. Qed.

Example extract_genericBlock : extractYamlFromText genericBlock = Some completeBody.
Proof. vm_compute. reflexivity. Qed.

Example extract_empty_result :
  extractYamlFromText "project_name: features: tech_stack: users: goal: ```"
  = Some EmptyString.
Proof. vm_compute. reflexivity. Qed.

(** ** The YAML buffer and the phases *)

Lemma includes_nonempty (s sub : string) :
  includes s sub = true -> truthy sub = true -> truthy s = true.
Proof. destruct s, sub; simpl; intros; congruence. Qed.

Lemma applyExtraction_success (text y : string) (c : ConversationState) :
  extractYamlFromText text = Some y -> truthy y = true ->
  applyExtraction text c =
  {| phase := prompt_review; lastYamlPrompt := Some y;
     sessionId := sessionId c; yamlBuffer := yamlBuffer c |}.
Proof. intros H1 H2. unfold applyExtraction. now rewrite H1, H2. Qed.

Lemma trackYaml_extractionInput (content : string) (c : ConversationState) :
  match extractionInput content c with
  | Some text =>
      phase (trackYaml content c) = phase (applyExtraction text c) /\
      lastYamlPrompt (trackYaml content c) = lastYamlPrompt (applyExtraction text c) /\
      sessionId (trackYaml content c) = sessionId c
  | None =>
      phase (trackYaml content c) = phase c /\
      lastYamlPrompt (trackYaml content c) = lastYamlPrompt c /\
      sessionId (trackYaml content c) = sessionId c
  end.
Proof.
  unfold extractionInput, trackYaml, present.
  destruct (includes content "```yaml"); [now cbn|].
  assert (Hsid : forall t c0, sessionId (applyExtraction t c0) = sessionId c0).
  { intros t c0. unfold applyExtraction.
    destruct (extractYamlFromText t) as [y|]; [|reflexivity].
    now destruct (truthy y). }
  assert (Hbuf : forall t b,
            phase (applyExtraction t (setYamlBuffer b c)) = phase (applyExtraction t c) /\
            lastYamlPrompt (applyExtraction t (setYamlBuffer b c)) =
              lastYamlPrompt (applyExtraction t c)).
  { intros t b. unfold applyExtraction.
    destruct (extractYamlFromText t) as [y|]; [|now cbn].
    now destruct (truthy y). }
  destruct (yamlBuffer c) as [buffer|]; cbn [default].
  - destruct (truthy buffer).
    + destruct (includes content "```").
      * cbn. now rewrite Hsid.
      * destruct (existsb _ movingOnPhrases).
        -- cbn. rewrite Hsid. cbn. destruct (Hbuf (appendFragment buffer content)
              (Some (appendFragment buffer content))) as [-> ->]. tauto.
        -- now cbn.
    + now rewrite Hsid.
  - now rewrite Hsid.
Qed.

(** C8 (amended).  Whenever the processing of an assistant message runs the
    extraction and it succeeds, the extracted specification replaces
    [lastYamlPrompt] and the phase is set to [prompt_review], in every phase:
    the phase is left unchanged when it was [prompt_review] already, and a
    later phase ([transitioning], [code_generation]) goes back to
    [prompt_review].  The session identifier is not touched. *)
Theorem extraction_success_sets_prompt_review
    (content text y : string) (c : ConversationState) :
  extractionInput content c = Some text ->
  extractYamlFromText text = Some y -> truthy y = true ->
  let c' := trackYaml content c in
  lastYamlPrompt c' = Some y /\
  phase c' = prompt_review /\
  sessionId c' = sessionId c /\
  (phase c = prompt_review -> phase c' = phase c).
Proof.
  intros Hin Hex Hy c'. subst c'.
  pose proof (trackYaml_extractionInput content c) as H. rewrite Hin in H.
  rewrite (applyExtraction_success text y c Hex Hy) in H. cbn in H.
  destruct H as (Hp & Hl & Hs). repeat split; try assumption. congruence.
Qed.

Lemma extraction_success_sets_prompt_review_witness :
  let c := {| phase := code_generation; lastYamlPrompt := Some "old";
              sessionId := Some "session-1-abc"; yamlBuffer := None |} in
  lastYamlPrompt (trackYaml genericBlock c) = Some completeBody /\
  phase (trackYaml genericBlock c) = prompt_review.
Proof.
  intros c.
  destruct (extraction_success_sets_prompt_review genericBlock genericBlock
              completeBody c) as (H1 & H2 & _); [reflexivity..|].
  split; assumption.
Defined.

(** C3 (amended).  The buffer joins fragments with a line break: after a
    fragment [f1] with the [```yaml] marker and a fragment [f2] with a fence
    but without that marker, the block handed to the extraction is
    [f1 + "\n" + f2] (not [f1 + f2]), the buffer is cleared, and the outcome
    is that of the extraction on exactly this block.  So a text cut at a line
    break, with the line break left out of both fragments, is reconstructed
    identically and gives the result of the uncut text. *)
Theorem buffer_joins_fragments_with_newline
    (f1 f2 : string) (c : ConversationState) :
  includes f1 "```yaml" = true ->
  includes f2 "```yaml" = false ->
  includes f2 "```" = true ->
  let c1 := trackYaml f1 c in
  let c2 := trackYaml f2 c1 in
  yamlBuffer c1 = Some f1 /\
  extractionInput f2 c1 = Some (f1 +:+ nl +:+ f2) /\
  c2 = setYamlBuffer None (applyExtraction (f1 +:+ nl +:+ f2) c) /\
  (forall total, total = f1 +:+ nl +:+ f2 ->
     c2 = setYamlBuffer None (applyExtraction total c)).
Proof.
  intros H1 H2 H3 c1 c2.
  assert (Hc1 : c1 = setYamlBuffer (Some f1) c).
  { subst c1. unfold trackYaml. now rewrite H1. }
  assert (Ht : truthy f1 = true) by (eapply includes_nonempty; eauto).
  assert (Hc2 : c2 = setYamlBuffer None (applyExtraction (f1 +:+ nl +:+ f2) c)).
  { subst c2. rewrite Hc1. unfold trackYaml. rewrite H2. cbn [yamlBuffer setYamlBuffer].
    rewrite Ht, H3. unfold appendFragment, applyExtraction.
    destruct (extractYamlFromText (f1 +:+ nl +:+ f2)) as [y|]; [|reflexivity].
    now destruct (truthy y). }
  repeat split.
  - now rewrite Hc1.
  - rewrite Hc1. unfold extractionInput, present. rewrite H2.
    cbn [yamlBuffer setYamlBuffer default]. now rewrite Ht, H3.
  - exact Hc2.
  - intros total ->. exact Hc2.
Qed.

Lemma buffer_joins_fragments_with_newline_witness :
  lastYamlPrompt
    (trackYaml ("  frontend: y" +:+ nl +:+ "ui_style: s" +:+ nl +:+ "```")
       (trackYaml ("```yaml" +:+ nl +:+ "project_name: A" +:+ nl +:+
                   "project_description: d" +:+ nl +:+ "users: [x]" +:+ nl +:+
                   "goal: [g]" +:+ nl +:+ "features: [f]" +:+ nl +:+ "tech_stack:")
          initialState))
  = Some completeBody.
Proof.
  pose proof (buffer_joins_fragments_with_newline
    ("```yaml" +:+ nl +:+ "project_name: A" +:+ nl +:+
     "project_description: d" +:+ nl +:+ "users: [x]" +:+ nl +:+
     "goal: [g]" +:+ nl +:+ "features: [f]" +:+ nl +:+ "tech_stack:")
    ("  frontend: y" +:+ nl +:+ "ui_style: s" +:+ nl +:+ "```")
    initialState eq_refl eq_refl eq_refl) as (_ & _ & H & _).
  rewrite H. reflexivity.
Defined.

(** C3 (counterexample).  [wholeBlock] is cut inside the fence, in the middle
    of a key.  The block the buffer hands to the extraction differs from
    [wholeBlock], and the extraction fails on it although it succeeds on
    [wholeBlock]. *)
Lemma split_inside_fence_differs :
  fragment1 +:+ fragment2 = wholeBlock /\
  extractYamlFromText wholeBlock = Some completeBody /\
  extractionInput fragment2 (trackYaml fragment1 initialState)
    = Some (appendFragment fragment1 fragment2) /\
  appendFragment fragment1 fragment2 <> wholeBlock /\
  extractYamlFromText (appendFragment fragment1 fragment2) = None /\
  lastYamlPrompt (trackYaml fragment2 (trackYaml fragment1 initialState)) = None.
Proof.
  repeat split; try (vm_compute; reflexivity).
  intros H. apply (f_equal String.length) in H. vm_compute in H. discriminate.
Qed.

(** ** Approval and the start of a generation *)

Lemma heap_sendIfOpen (browserWs : option bool) (m : BrowserMsg) (s : Store) :
  heap (sendIfOpen browserWs m s) = heap s.
Proof. now destruct browserWs as [[]|]. Qed.

Lemma trackYaml_phase_code_generation (content : string) (c : ConversationState) :
  phase (trackYaml content c) = code_generation -> phase c = code_generation.
Proof.
  pose proof (trackYaml_extractionInput content c) as H.
  assert (Ha : forall t, phase (applyExtraction t c) = code_generation ->
                         phase c = code_generation).
  { intros t. unfold applyExtraction.
    destruct (extractYamlFromText t) as [y|]; [|tauto].
    destruct (truthy y); [discriminate | tauto]. }
  destruct (extractionInput content c) as [t|]; destruct H as (Hp & _).
  - rewrite Hp. apply Ha.
  - now rewrite Hp.
Qed.

Lemma applyExtraction_specBound (text : string) (c : ConversationState) :
  specBound c -> specBound (applyExtraction text c).
Proof.
  unfold applyExtraction. destruct (extractYamlFromText text) as [y|]; [|tauto].
  destruct (truthy y) eqn:E; [|tauto]. intros _. now right.
Qed.

Lemma trackYaml_specBound (content : string) (c : ConversationState) :
  specBound c -> specBound (trackYaml content c).
Proof.
  intros Hc. pose proof (trackYaml_extractionInput content c) as H.
  unfold specBound in *.
  destruct (extractionInput content c) as [t|]; destruct H as (-> & -> & _).
  - now apply applyExtraction_specBound.
  - exact Hc.
Qed.

(** The handler keeps a specification bound outside the phase [ideation]; so
    do all the states it reaches from [initialState]. *)
Lemma onConversationText_specBound role content t browserWs random run w :
  specBound (conversationState w) ->
  specBound (conversationState
               (onConversationText role content t browserWs random run w)).
Proof.
  intros Hw. unfold onConversationText.
  set (c := if String.eqb role "assistant"
            then trackYaml content (conversationState w)
            else conversationState w).
  assert (Hc : specBound c).
  { subst c. destruct (String.eqb role "assistant");
      [now apply trackYaml_specBound | exact Hw]. }
  clearbody c.
  destruct (String.eqb role "user" && Phase_eqb (phase c) prompt_review
            && present (lastYamlPrompt c) && detectYamlApproval content) eqn:E1.
  - apply andb_true_iff in E1 as [E1 _]. apply andb_true_iff in E1 as [_ Epr].
    unfold runGeneration.
    destruct browserWs as [isOpen|].
    + destruct (startCodeGeneration _ _ SocketObject _ _ _) as [s [r|e]].
      * destruct (success r); cbn; [now right | now left].
      * now left.
    + now left.
  - destruct (String.eqb role "user"
              && (Phase_eqb (phase c) prompt_review || Phase_eqb (phase c) ideation)
              && detectYamlApproval content); exact Hc.
Qed.

(** C2 (amended).  A user utterance classified as approval while no
    specification is bound leaves the conversation state (and so the phase)
    unchanged and starts no generation: the session registry, the session
    objects and the directories are untouched and the code generator is not
    called.  The corrective message is written to the browser when its
    socket is open and the phase is [ideation] or [prompt_review]; with a
    closed or missing socket, or in the phases [transitioning] and
    [code_generation], nothing is written for it.  The phase becomes
    [code_generation] only through an approval in [prompt_review] with a
    specification bound, and then the minted session identifier is stored in
    the conversation state; a session object is created only on that path. *)
Theorem approval_without_specification :
  (forall content t browserWs random run w,
     present (lastYamlPrompt (conversationState w)) = false ->
     detectYamlApproval content = true ->
     let w' := onConversationText "user" content t browserWs random run w in
     conversationState w' = conversationState w /\
     heap (store w') = heap (store w) /\
     activeGenerations (store w') = activeGenerations (store w) /\
     generated (store w') = generated (store w) /\
     trace (store w') =
       trace (store w) ++
       match browserWs with
       | Some true =>
           Send (Text "user" content) ::
           (if answersApproval (phase (conversationState w))
            then [Send (Text "system" correctiveText)] else [])
       | _ => []
       end) /\
  (forall role content t browserWs random run w,
     let w' := onConversationText role content t browserWs random run w in
     phase (conversationState w') = code_generation ->
     phase (conversationState w) = code_generation \/
     (role = "user" /\
      phase (conversationState w) = prompt_review /\
      present (lastYamlPrompt (conversationState w)) = true /\
      detectYamlApproval content = true /\
      sessionId (conversationState w') = Some (generateSessionId t random))) /\
  (forall role content t browserWs random run w,
     let w' := onConversationText role content t browserWs random run w in
     heap (store w') <> heap (store w) ->
     role = "user" /\
     phase (conversationState w) = prompt_review /\
     present (lastYamlPrompt (conversationState w)) = true /\
     detectYamlApproval content = true) /\
  (forall browserWs newId w,
     phase (conversationState (beginGeneration browserWs newId w)) = code_generation /\
     sessionId (conversationState (beginGeneration browserWs newId w)) = Some newId).
Proof.
  split; [|split; [|split]].
  - intros content t browserWs random run w Hno Happ w'. subst w'.
    unfold onConversationText. cbn [String.eqb Ascii.eqb Bool.eqb]. cbn match.
    rewrite Hno, Happ, !andb_false_r, andb_true_r. cbn match.
    unfold answersApproval.
    destruct (Phase_eqb (phase (conversationState w)) prompt_review
              || Phase_eqb (phase (conversationState w)) ideation);
      destruct browserWs as [[]|]; cbn;
      rewrite ?app_nil_r, <- ?app_assoc; repeat split; reflexivity.
  - intros role content t browserWs random run w w' Hph. subst w'.
    unfold onConversationText in Hph |- *.
    destruct (String.eqb role "assistant") eqn:Ea.
    + apply String.eqb_eq in Ea. subst role.
      cbn [String.eqb Ascii.eqb Bool.eqb] in Hph |- *. cbn match in Hph |- *.
      cbn in Hph. left. now apply trackYaml_phase_code_generation in Hph.
    + destruct (String.eqb role "user") eqn:Eu; cbn [andb] in Hph |- *;
        [|now left].
      apply String.eqb_eq in Eu. subst role.
      destruct (Phase_eqb (phase (conversationState w)) prompt_review) eqn:Ep;
        cbn [andb] in Hph |- *.
      * destruct (present (lastYamlPrompt (conversationState w))) eqn:Epr;
          cbn [andb] in Hph |- *.
        -- destruct (detectYamlApproval content) eqn:Ed.
           ++ right. repeat split; try reflexivity.
              ** now destruct (phase (conversationState w)).
              ** revert Hph. unfold runGeneration.
                 destruct browserWs as [isOpen|].
                 --- destruct (startCodeGeneration _ _ SocketObject _ _ _) as [s [r|e]].
                     +++ destruct (success r); cbn; [reflexivity | discriminate].
                     +++ cbn. discriminate.
                 --- cbn. discriminate.
           ++ cbn in Hph. now left.
        -- destruct (_ && detectYamlApproval content); cbn in Hph; now left.
      * destruct (_ && detectYamlApproval content); cbn in Hph; now left.
  - intros role content t browserWs random run w w' Hheap. subst w'.
    unfold onConversationText in Hheap.
    destruct (String.eqb role "user") eqn:Eu.
    + apply String.eqb_eq in Eu. subst role.
      cbn [String.eqb Ascii.eqb Bool.eqb] in Hheap. cbn match in Hheap.
      cbn [andb] in Hheap.
      destruct (Phase_eqb (phase (conversationState w)) prompt_review) eqn:Ep;
        cbn [andb orb] in Hheap.
      * destruct (present (lastYamlPrompt (conversationState w))) eqn:Epr;
          cbn [andb] in Hheap.
        -- destruct (detectYamlApproval content) eqn:Ed.
           ++ repeat split. now destruct (phase (conversationState w)).
           ++ cbn in Hheap. now rewrite heap_sendIfOpen in Hheap.
        -- destruct (detectYamlApproval content); cbn in Hheap;
             rewrite ?heap_sendIfOpen in Hheap; now destruct Hheap.
      * destruct (_ && detectYamlApproval content); cbn in Hheap;
          rewrite ?heap_sendIfOpen in Hheap; now destruct Hheap.
    + cbn [andb] in Hheap. cbn in Hheap.
      destruct (String.eqb role "assistant"); [destruct (hasYamlContent content)|];
        rewrite ?heap_sendIfOpen in Hheap; now destruct Hheap.
  - intros. split; reflexivity.
Qed.

Lemma approval_without_specification_witness :
  conversationState
    (onConversationText "user" "Yes, looks good" 1000 (Some true) "k3j9x2m1p"
       failingRun initialWorld) = initialState.
Proof.
  apply (proj1 approval_without_specification); reflexivity.
Defined.

(** C2 (counterexample).  In the initial state no specification is bound and
    the user utterance ["yes"] is an approval; when the browser socket is
    gone, processing it writes nothing, so no corrective message reaches the
    client. *)
Lemma approval_without_socket_is_silent :
  present (lastYamlPrompt (conversationState initialWorld)) = false /\
  detectYamlApproval "yes" = true /\
  trace (store (onConversationText "user" "yes" 1000 None "k3j9x2m1p"
                  failingRun initialWorld)) = [].
Proof. repeat split; vm_compute; reflexivity. Qed.

(** C8 (counterexample).  After a successful generation the phase is
    [code_generation]; a further assistant message with a complete
    specification is extracted successfully and moves the phase back to
    [prompt_review]. *)
Lemma extraction_after_generation_changes_phase :
  phase (conversationState afterApproval) = code_generation /\
  extractionInput genericBlock (conversationState afterApproval) = Some genericBlock /\
  extractYamlFromText genericBlock = Some completeBody /\
  phase (conversationState
           (onConversationText "assistant" genericBlock 9000 (Some true)
              "k3j9x2m1p" successfulRun afterApproval)) = prompt_review.
Proof. repeat split; vm_compute; reflexivity. Qed.

(** ** The generation session manager *)

Lemma emitEvent_eq i type sid data s :
  emitEvent i type sid data s =
  {| heap := heap s; activeGenerations := activeGenerations s;
     generated := generated s; trace := trace s ++ emitted i type sid data |}.
Proof.
  unfold emitEvent, emitted, log. destruct (wsOpen i); cbn; [|reflexivity].
  now rewrite <- app_assoc.
Qed.

Lemma alter_last (f : GenerationSession -> GenerationSession)
    (h : list GenerationSession) (g : GenerationSession) :
  alter f (length h) (h ++ [g]) = h ++ [f g].
Proof. rewrite alter_app_r_alt by lia. now rewrite Nat.sub_diag. Qed.

Lemma onFailure_eq l sid i cleanupError e s :
  onFailure l sid i cleanupError e s =
  let tr := trace s ++
            emitted i "codegen-error" sid
              (ErrorData (messageOf e)
                 (Some (now i - startTimeAt l (update l (setStatus error) s))%Z))
            ++ [CleanupSession sid] in
  match cleanupError with
  | Some thrown =>
      ({| heap := alter (setStatus error) l (heap s);
          activeGenerations := activeGenerations s;
          generated := generated s;
          trace := tr |}, Threw thrown)
  | None =>
      ({| heap := alter (setStatus error) l (heap s);
          activeGenerations := delete sid (activeGenerations s);
          generated := generated s ∖ {[sid]};
          trace := tr |}, Returned (failure (messageOf e)))
  end.
Proof.
  unfold onFailure. rewrite emitEvent_eq.
  unfold cleanupSession, log, setGenerated, setActive, update, setHeap, failure,
    messageOf. cbn.
  destruct cleanupError; now rewrite <- app_assoc.
Qed.

Lemma startCodeGeneration_null yaml sid i run s :
  startCodeGeneration yaml sid NullSocket i run s =
  ({| heap := heap s ++ [newSession starting yaml (now i)];
      activeGenerations := <[sid := length (heap s)]> (activeGenerations s);
      generated := generated s;
      trace := trace s |}, Threw nullSocketError).
Proof. reflexivity. Qed.

Lemma startCodeGeneration_invalid yaml sid i run s :
  isValid (validateYamlPrompt yaml) = false ->
  startCodeGeneration yaml sid SocketObject i run s =
  let tr := trace s ++
            emitted i "codegen-start" sid (StartData yaml) ++
            emitted i "codegen-error" sid
              (ErrorData (validationMessage yaml) (Some 0%Z)) ++
            [CleanupSession sid] in
  match cleanupError run with
  | Some thrown =>
      ({| heap := heap s ++ [newSession error yaml (now i)];
          activeGenerations := <[sid := length (heap s)]> (activeGenerations s);
          generated := generated s;
          trace := tr |}, Threw thrown)
  | None =>
      ({| heap := heap s ++ [newSession error yaml (now i)];
          activeGenerations := delete sid (activeGenerations s);
          generated := generated s ∖ {[sid]};
          trace := tr |}, Returned (failure (validationMessage yaml)))
  end.
Proof.
  intros Hinv. unfold startCodeGeneration, registerSession.
  rewrite Hinv. cbn [negb]. rewrite emitEvent_eq, onFailure_eq. cbv zeta.
  cbn [generated setActive setHeap].
  destruct (cleanupError run);
    unfold startTimeAt, update, setHeap, setActive; cbn;
    rewrite !alter_last; rewrite list_lookup_middle by reflexivity; cbn;
    rewrite Z.sub_diag, <- !app_assoc; [|rewrite delete_insert_eq]; reflexivity.
Qed.

Lemma onCallback_fields l sid s ic :
  heap (onCallback l sid s ic) =
    alter (fun g => sessionAfterCallback g ic) l (heap s) /\
  activeGenerations (onCallback l sid s ic) = activeGenerations s /\
  generated (onCallback l sid s ic) = generated s.
Proof.
  destruct ic as [i [chunk|tree|url|message]]; unfold onCallback;
    rewrite emitEvent_eq; cbn; unfold sessionAfterCallback; cbn;
    repeat split; try (symmetry; now apply list_alter_id).
  apply list_alter_alter_eq.
Qed.

Lemma foldl_onCallback_fields l sid cbs s :
  heap (foldl (onCallback l sid) s cbs) =
    alter (fun g => foldl sessionAfterCallback g cbs) l (heap s) /\
  activeGenerations (foldl (onCallback l sid) s cbs) = activeGenerations s /\
  generated (foldl (onCallback l sid) s cbs) = generated s.
Proof.
  revert s. induction cbs as [|ic cbs IH]; intros s; cbn [foldl].
  - repeat split. symmetry. now apply list_alter_id.
  - destruct (IH (onCallback l sid s ic)) as (Hh & Ha & Hg).
    destruct (onCallback_fields l sid s ic) as (Hh' & Ha' & Hg').
    rewrite Hh, Ha, Hg, Hh', Ha', Hg'. repeat split.
    apply list_alter_alter_eq.
Qed.

Lemma validateYamlPrompt_processed yaml :
  isValid (validateYamlPrompt yaml) = true ->
  exists p, processed (validateYamlPrompt yaml) = Some p.
Proof.
  unfold validateYamlPrompt. cbn.
  destruct (_ ++ _); [eauto | discriminate].
Qed.

Lemma startCodeGeneration_valid yaml sid i run s :
  isValid (validateYamlPrompt yaml) = true ->
  let l := length (heap s) in
  let g := foldl sessionAfterCallback (newSession generating yaml (now i))
             (callbacks run) in
  let s' := fst (startCodeGeneration yaml sid SocketObject i run s) in
  let r := snd (startCodeGeneration yaml sid SocketObject i run s) in
  match outcome run with
  | Resolved url path =>
      heap s' = heap s ++ [setRepoPath path g] /\
      activeGenerations s' = <[sid := l]> (activeGenerations s) /\
      r = Returned {| success := true; resultPreviewUrl := Some url;
                      resultError := None |}
  | Rejected e =>
      heap s' = heap s ++ [setStatus error g] /\
      match cleanupError run with
      | Some thrown =>
          activeGenerations s' = <[sid := l]> (activeGenerations s) /\
          r = Threw thrown
      | None =>
          activeGenerations s' = delete sid (activeGenerations s) /\
          r = Returned (failure (messageOf e))
      end
  end.
Proof.
  intros Hv l g s' r. subst s' r.
  unfold startCodeGeneration, registerSession. rewrite Hv. cbn [negb].
  rewrite !emitEvent_eq.
  set (s1 := log _ (Build_Store _ _ _ _)).
  destruct (foldl_onCallback_fields (length (heap s)) sid (callbacks run) s1)
    as (Hh & Ha & Hg).
  assert (Hh1 : heap s1 = heap s ++ [newSession generating yaml (now i)]).
  { subst s1. cbn. unfold update, setHeap, setActive. cbn. now rewrite alter_last. }
  assert (Ha1 : activeGenerations s1 = <[sid := length (heap s)]> (activeGenerations s)).
  { subst s1. reflexivity. }
  assert (Hg1 : generated s1 = generated s) by (subst s1; reflexivity).
  rewrite Hh1, alter_last in Hh. rewrite Ha1 in Ha. rewrite Hg1 in Hg.
  set (s2 := foldl _ s1 _) in *.
  set (s3 := if createsDir run then _ else s2).
  assert (Hh3 : heap s3 = heap s2) by (subst s3; now destruct (createsDir run)).
  assert (Ha3 : activeGenerations s3 = activeGenerations s2)
    by (subst s3; now destruct (createsDir run)).
  assert (Hg3 : generated s3 = dirsAfterRun sid run s).
  { subst s3. unfold dirsAfterRun. destruct (createsDir run); cbn; now rewrite Hg. }
  destruct (outcome run) as [url path|e].
  - rewrite emitEvent_eq. cbn. unfold update, setHeap. cbn.
    rewrite Hh3, Hh, Ha3, Ha, alter_last. fold g. repeat split.
  - rewrite onFailure_eq. cbv zeta. rewrite Hg3.
    destruct (cleanupError run); cbn;
      rewrite Hh3, Hh, Ha3, Ha, alter_last; [|rewrite delete_insert_eq];
      repeat split.
Qed.








Lemma cancelCodeGeneration_fields sid i s :
  let s' := fst (cancelCodeGeneration sid i s) in
  match activeGenerations s !! sid with
  | Some l =>
      heap s' = alter (setStatus cancelled) l (heap s) /\
      activeGenerations s' = delete sid (activeGenerations s) /\
      generated s' = generated s ∖ {[sid]} /\
      snd (cancelCodeGeneration sid i s) = true
  | None => s' = s /\ snd (cancelCodeGeneration sid i s) = false
  end.
Proof.
  unfold cancelCodeGeneration.
  destruct (activeGenerations s !! sid) as [l|]; [|now split].
  rewrite emitEvent_eq. cbn [fst snd].
  unfold cleanupSession, log, setGenerated, setActive, update, setHeap.
  cbn [heap activeGenerations generated trace].
  destruct (_ ≫= cancelFn); cbn [heap activeGenerations generated trace];
    repeat split.
Qed.



(** ** The sweep of stale sessions *)

Section Binary64.
Import SpecFloat.
Local Open Scope Z_scope.























End Binary64.

Lemma sweep_nothing_stale cutoff (es : list (string * nat)) (s : Store) (n : nat) :
  (forall k l, (k, l) ∈ es -> isStale cutoff (heap s) l = false) ->
  foldl (sweepEntry cutoff) (s, n) es = (s, n).
Proof.
  induction es as [|[k l] es IH]; intros H; [reflexivity|]. cbn [foldl].
  assert (Hstep : sweepEntry cutoff (s, n) (k, l) = (s, n)).
  { unfold sweepEntry. rewrite (H k l); [reflexivity|].
    apply elem_of_cons. now left. }
  rewrite Hstep. apply IH. intros k' l' Hin. apply (H k' l').
  apply elem_of_cons. now right.
Qed.


Lemma elem_of_staleIds cutoff h es j :
  j ∈ staleIds cutoff h es <-> exists l, (j, l) ∈ es /\ isStale cutoff h l = true.
Proof.
  induction es as [|[k l] es IH]; cbn.
  - split; [intros H; inversion H | intros [l [H _]]; inversion H].
  - destruct (isStale cutoff h l) eqn:E.
    + rewrite elem_of_cons, IH. split.
      * intros [-> | [l' [Hin Hs]]]; [exists l | exists l'];
          (split; [|assumption]); rewrite elem_of_cons; auto.
      * intros [l' [Hin Hs]]. apply elem_of_cons in Hin as [[= -> ->] | Hin];
          [now left | right; eauto].
    + rewrite IH. split.
      * intros [l' [Hin Hs]]. exists l'. rewrite elem_of_cons. auto.
      * intros [l' [Hin Hs]]. apply elem_of_cons in Hin as [[= -> ->] | Hin];
          [congruence | eauto].
Qed.

Lemma sweep_loop cutoff es : forall s n,
  NoDup es.*1 ->
  (forall k l, (k, l) ∈ es -> activeGenerations s !! k = Some l) ->
  let res := foldl (sweepEntry cutoff) (s, n) es in
  let removed := staleIds cutoff (heap s) es in
  heap (fst res) = heap s /\
  (forall j, activeGenerations (fst res) !! j =
             if bool_decide (j ∈ removed) then None else activeGenerations s !! j) /\
  snd res = n + length removed /\
  snd res + size (activeGenerations (fst res)) = n + size (activeGenerations s) /\
  trace (fst res) = trace s ++ map CleanupSession removed /\
  generated (fst res) = generated s ∖ list_to_set removed /\
  NoDup removed.
Proof.
  induction es as [|[k l] es IH]; intros s n Hnd Hin; cbv zeta in *;
    cbn [foldl staleIds].
  - cbn. rewrite app_nil_r, difference_empty_L.
    repeat split; try lia; try constructor.
  - apply NoDup_cons in Hnd as [Hk Hnd]. cbn [fmap list_fmap fst] in Hk.
    assert (Hkl : activeGenerations s !! k = Some l)
      by (apply Hin; now left).
    destruct (isStale cutoff (heap s) l) eqn:Est.
    + set (s1 := setActive (delete k (activeGenerations s)) (cleanupSession k s)).
      assert (Hstep : sweepEntry cutoff (s, n) (k, l) = (s1, S n)).
      { unfold sweepEntry. now rewrite Est. }
      rewrite Hstep.
      assert (Hin1 : forall k' l', (k', l') ∈ es ->
                       activeGenerations s1 !! k' = Some l').
      { intros k' l' H'. subst s1. cbn. rewrite lookup_delete_ne.
        - apply Hin. now right.
        - intros ->. apply Hk. apply list_elem_of_fmap. now exists (k', l'). }
      destruct (IH s1 (S n) Hnd Hin1) as (Hh & Ha & Hc & Hsz & Htr & Hg & Hnd').
      change (heap s1) with (heap s) in *.
      assert (Hknot : k ∉ staleIds cutoff (heap s) es).
      { intros H'. apply elem_of_staleIds in H' as [l' [H' _]].
        apply Hk. apply list_elem_of_fmap. now exists (k, l'). }
      repeat split.
      * exact Hh.
      * intros j. rewrite Ha. subst s1. cbn [activeGenerations setActive].
        destruct (decide (j = k)) as [->|Hne].
        -- rewrite lookup_delete_eq, (bool_decide_eq_true_2 (k ∈ k :: _)) by now left.
           now destruct (bool_decide _).
        -- rewrite lookup_delete_ne by congruence.
           destruct (bool_decide (j ∈ staleIds cutoff (heap s) es)) eqn:Eb.
           ++ apply bool_decide_eq_true_1 in Eb.
              now rewrite bool_decide_eq_true_2 by now right.
           ++ apply bool_decide_eq_false_1 in Eb.
              rewrite bool_decide_eq_false_2; [reflexivity|].
              rewrite elem_of_cons. tauto.
      * rewrite Hc. cbn. lia.
      * rewrite Hsz. subst s1. cbn [activeGenerations setActive cleanupSession
          setGenerated log].
        rewrite <- (insert_delete_id (activeGenerations s) k l Hkl) at 2.
        rewrite map_size_insert_None by apply lookup_delete_eq. lia.
      * rewrite Htr. subst s1. cbn. now rewrite <- app_assoc.
      * rewrite Hg. subst s1. cbn [generated setActive cleanupSession setGenerated].
        now rewrite difference_difference_l_L.
      * apply NoDup_cons. split; assumption.
    + assert (Hstep : sweepEntry cutoff (s, n) (k, l) = (s, n)).
      { unfold sweepEntry. now rewrite Est. }
      rewrite Hstep.
      assert (Hin1 : forall k' l', (k', l') ∈ es ->
                       activeGenerations s !! k' = Some l').
      { intros k' l' H'. apply Hin. now right. }
      exact (IH s n Hnd Hin1).
Qed.





Example cleanupStaleGenerations_scenario :
  let res := cleanupStaleGenerations (ofInteger 30) 2400000 sweepScenario in
  snd res = 1 /\
  activeGenerations (fst res) !! "old" = None /\
  activeGenerations (fst res) !! "young" = Some 1 /\
  trace (fst res) = [CleanupSession "old"].
Proof. repeat split; vm_compute; reflexivity. Qed.

(** A cutoff that is not a whole number of milliseconds is truncated: with
    an age of 2^-20 minutes the cutoff date is one millisecond before now,
    and a [ready] session is kept with it as with any other age. *)
Example cleanupStaleGenerations_fraction :
  cutoffDate (SpecFloat.S754_finite false 1 (-20)) 2400000 = Some 2399999%Z /\
  cleanupStaleGenerations (SpecFloat.S754_finite false 1 (-20)) 2400000
    readyScenario = (readyScenario, 0).
Proof. split; vm_compute; reflexivity. Qed.

(** * Further properties of the code *)

(** ** Strings: substrings, lines and trimming *)

Lemma append_assoc (a b c : string) : (a +:+ b) +:+ c = a +:+ b +:+ c.
Proof.
  induction a as [|x a IH]; [reflexivity|].
  rewrite !append_String. now rewrite IH.
Qed.

Lemma append_nil_r (a : string) : a +:+ "" = a.
Proof.
  induction a as [|x a IH]; [reflexivity|].
  rewrite append_String. now rewrite IH.
Qed.

Lemma isSubstring_refl (s : string) : isSubstring s s.
Proof. exists EmptyString, EmptyString. now rewrite append_nil_r. Qed.

Lemma isSubstring_trans (a b c : string) :
  isSubstring a b -> isSubstring b c -> isSubstring a c.
Proof.
  intros [p [q ->]] [p' [q' ->]]. exists (p' +:+ p), (q +:+ q').
  now rewrite !append_assoc.
Qed.

Lemma isSubstring_prefix (a b : string) : isSubstring a (a +:+ b).
Proof. now exists EmptyString, b. Qed.

Lemma isSubstring_suffix (a b : string) : isSubstring b (a +:+ b).
Proof. exists a, EmptyString. now rewrite append_nil_r. Qed.

Lemma includes_trans (s m sub : string) :
  includes s m = true -> includes m sub = true -> includes s sub = true.
Proof.
  rewrite !includes_spec. intros H1 H2. now apply isSubstring_trans with m.
Qed.

Lemma includes_isSubstring (s m sub : string) :
  isSubstring m s -> includes m sub = true -> includes s sub = true.
Proof.
  intros H1 H2. apply includes_trans with m; [now apply includes_spec | exact H2].
Qed.

Lemma trimStart_suffix (s : string) : exists ws, s = ws +:+ trimStart s.
Proof.
  induction s as [|c s [ws IH]]; [now exists EmptyString|]. cbn [trimStart].
  destruct (isWhiteSpace c).
  - exists (String c ws). rewrite append_String. now f_equal.
  - now exists EmptyString.
Qed.

Lemma trimEnd_prefix (s : string) : exists ws, s = trimEnd s +:+ ws.
Proof.
  induction s as [|c s [ws IH]]; [now exists EmptyString|]. cbn [trimEnd].
  destruct (trimEnd s) as [|d r] eqn:E.
  - destruct (isWhiteSpace c).
    + now exists (String c s).
    + exists ws. rewrite append_String. f_equal. exact IH.
  - exists ws. rewrite append_String. f_equal. exact IH.
Qed.

Lemma trim_isSubstring (s : string) : isSubstring (trim s) s.
Proof.
  unfold trim. destruct (trimStart_suffix s) as [ws1 H1].
  destruct (trimEnd_prefix (trimStart s)) as [ws2 H2].
  exists ws1, ws2. now rewrite <- H2.
Qed.

Lemma trimStart_fixed (c : ascii) (s : string) :
  isWhiteSpace c = false -> trimStart (String c s) = String c s.
Proof. intros H. cbn [trimStart]. now rewrite H. Qed.

Lemma trimEnd_head (c : ascii) (s : string) :
  isWhiteSpace c = false -> exists r, trimEnd (String c s) = String c r.
Proof.
  intros H. cbn [trimEnd]. destruct (trimEnd s); [rewrite H|]; eauto.
Qed.

Lemma trimEnd_cons (c d : ascii) (s r : string) :
  trimEnd s = String d r -> trimEnd (String c s) = String c (String d r).
Proof. intros H. cbn [trimEnd]. now rewrite H. Qed.

Lemma trimEnd_idempotent (s : string) : trimEnd (trimEnd s) = trimEnd s.
Proof.
  induction s as [|c s IH]; [reflexivity|].
  destruct (trimEnd s) as [|d r] eqn:E.
  - cbn [trimEnd]. rewrite E.
    destruct (isWhiteSpace c) eqn:Ec; [reflexivity|]. cbn. now rewrite Ec.
  - rewrite (trimEnd_cons c d s r E). now apply trimEnd_cons.
Qed.

Lemma trimStart_trimEnd (t : string) :
  trimStart t = t -> trimStart (trimEnd t) = trimEnd t.
Proof.
  destruct t as [|c t]; [reflexivity|]. cbn [trimStart].
  destruct (isWhiteSpace c) eqn:Ec.
  - intros H. exfalso.
    destruct (trimStart_suffix t) as [ws Hws].
    apply (f_equal String.length) in H. rewrite Hws in H at 2.
    cbn [String.length] in H.
    assert (Hl : forall a b, String.length (a +:+ b) =
                             String.length a + String.length b).
    { intros a b. induction a as [|x a IHa]; [reflexivity|].
      rewrite append_String. cbn. now rewrite IHa. }
    rewrite Hl in H. lia.
  - intros _. destruct (trimEnd_head c t Ec) as [r ->]. now apply trimStart_fixed.
Qed.

Lemma trimStart_idempotent (s : string) : trimStart (trimStart s) = trimStart s.
Proof.
  induction s as [|c s IH]; [reflexivity|]. cbn [trimStart].
  destruct (isWhiteSpace c) eqn:Ec; [exact IH|]. now apply trimStart_fixed.
Qed.

Lemma trim_idempotent (s : string) : trim (trim s) = trim s.
Proof.
  unfold trim. rewrite trimStart_trimEnd by apply trimStart_idempotent.
  apply trimEnd_idempotent.
Qed.

Lemma splitLines_cons (s : string) : exists l ls, splitLines s = l :: ls.
Proof.
  induction s as [|c s [l [ls IH]]]; cbn [splitLines]; [eauto|].
  destruct (Ascii.eqb c "010"); [eauto|]. rewrite IH. eauto.
Qed.

Lemma joinLines_String (c : ascii) (l : string) (ls : list string) :
  joinLines (String c l :: ls) = String c (joinLines (l :: ls)).
Proof. destruct ls; reflexivity. Qed.

(** [text.split('\n').join('\n')] is [text]. *)
Lemma joinLines_splitLines (s : string) : joinLines (splitLines s) = s.
Proof.
  induction s as [|c s IH]; [reflexivity|]. cbn [splitLines].
  destruct (splitLines_cons s) as [l [ls E]].
  destruct (Ascii.eqb c "010") eqn:Ec.
  - apply Ascii.eqb_eq in Ec. subst c. rewrite E in *. cbn [joinLines].
    now rewrite <- IH.
  - rewrite E in *. rewrite joinLines_String. now rewrite IH.
Qed.

Lemma joinLines_app (l1 l2 : list string) :
  l1 <> [] -> l2 <> [] ->
  joinLines (l1 ++ l2) = joinLines l1 +:+ nl +:+ joinLines l2.
Proof.
  intros H1 H2. induction l1 as [|a l1 IH]; [congruence|].
  destruct l1 as [|b l1].
  - destruct l2 as [|c l2]; [congruence|]. reflexivity.
  - change (joinLines ((a :: b :: l1) ++ l2))
      with (a +:+ nl +:+ joinLines ((b :: l1) ++ l2)).
    rewrite IH by congruence.
    change (joinLines (a :: b :: l1)) with (a +:+ nl +:+ joinLines (b :: l1)).
    now rewrite !append_assoc.
Qed.

Lemma joinLines_middle (l1 l2 l3 : list string) :
  isSubstring (joinLines l2) (joinLines (l1 ++ l2 ++ l3)).
Proof.
  destruct l2 as [|x l2].
  { exists EmptyString, (joinLines (l1 ++ [] ++ l3)). reflexivity. }
  assert (H23 : isSubstring (joinLines (x :: l2)) (joinLines ((x :: l2) ++ l3))).
  { destruct l3 as [|y l3].
    - rewrite app_nil_r. apply isSubstring_refl.
    - rewrite joinLines_app by congruence. apply isSubstring_prefix. }
  destruct l1 as [|z l1]; [exact H23|].
  rewrite joinLines_app by (try congruence; now destruct l2).
  eapply isSubstring_trans; [exact H23|].
  eapply isSubstring_trans; [apply isSubstring_suffix|apply isSubstring_suffix].
Qed.

Lemma slice_isSubstring (lines : list string) (a b : nat) :
  isSubstring (joinLines (slice lines a b)) (joinLines lines).
Proof.
  unfold slice.
  rewrite <- (take_drop a lines) at 2.
  rewrite <- (take_drop (b - a) (drop a lines)) at 2.
  apply joinLines_middle.
Qed.

(** ** The extraction engine: what a result always is *)

Lemma restOfLine_prefix (s : string) : exists r, s = restOfLine s +:+ r.
Proof.
  induction s as [|c s [r IH]]; [now exists EmptyString|]. cbn [restOfLine].
  destruct (isLineTerminator c); [now exists (String c s)|].
  exists r. rewrite append_String. now f_equal.
Qed.

Lemma matchGroup1_isSubstring (p : Pattern) (text g : string) :
  matchGroup1 p text = Some g -> isSubstring g text.
Proof.
  destruct p as [o c|o]; cbn [matchGroup1]; unfold matchBetween, matchToLineEnd;
    destruct (cut text o) as [[before rest]|] eqn:E1; try discriminate;
    pose proof (cut_sound _ _ _ _ E1) as H1.
  - destruct (cut rest c) as [[inner after]|] eqn:E2; [|discriminate].
    intros [= <-]. pose proof (cut_sound _ _ _ _ E2) as H2.
    exists (before +:+ o), (c +:+ after). rewrite H1, H2. now rewrite !append_assoc.
  - intros [= <-]. destruct (restOfLine_prefix rest) as [r Hr].
    exists (before +:+ o), r. rewrite H1. rewrite Hr at 1. now rewrite !append_assoc.
Qed.

Lemma tryPatterns_isSubstring (ps : list Pattern) (text y : string) :
  tryPatterns ps text = Some y -> isSubstring y text.
Proof.
  induction ps as [|p ps IH]; cbn [tryPatterns]; [discriminate|].
  destruct (matchGroup1 p text) as [g|] eqn:E; [|exact IH].
  destruct (truthy g); [|exact IH].
  destruct (hasAllFields (trim g)); [|exact IH].
  intros [= <-]. eapply isSubstring_trans; [apply trim_isSubstring|].
  now apply matchGroup1_isSubstring with p.
Qed.

Lemma fallbackScan_isSubstring (text y : string) :
  fallbackScan text = Some y -> isSubstring y text.
Proof.
  unfold fallbackScan. destruct (_ && _); [|discriminate].
  destruct (scanLines _ _ _ _) as [[a|] [b|]]; try discriminate.
  intros [= <-]. eapply isSubstring_trans; [apply trim_isSubstring|].
  rewrite <- (joinLines_splitLines text) at 2. apply slice_isSubstring.
Qed.

Lemma fallbackScan_scanKeys (text y key : string) :
  fallbackScan text = Some y -> In key scanKeys -> includes text key = true.
Proof.
  unfold fallbackScan, scanKeys.
  destruct (includes text "project_name:") eqn:E1; [|discriminate].
  destruct (includes text "features:") eqn:E2; [|discriminate].
  destruct (includes text "tech_stack:") eqn:E3; [|discriminate].
  destruct (includes text "users:") eqn:E4; [|discriminate].
  destruct (includes text "goal:") eqn:E5; [|discriminate].
  intros _ Hk. cbn [In] in Hk. intuition (subst; assumption).
Qed.

(** X1.  Whatever [extractYamlFromText] returns is a contiguous part of the
    text it was given, and it has no white space at either end. *)
Theorem extractYamlFromText_part_of_text (text y : string) :
  extractYamlFromText text = Some y ->
  isSubstring y text /\ trim y = y.
Proof.
  unfold extractYamlFromText.
  destruct (tryPatterns patterns text) as [y'|] eqn:E.
  - intros [= <-]. split; [now apply tryPatterns_isSubstring with patterns|].
    clear -E. revert E. generalize patterns as ps.
    induction ps as [|p ps IH]; cbn [tryPatterns]; [discriminate|].
    destruct (matchGroup1 p text) as [g|]; [|exact IH].
    destruct (truthy g); [|exact IH].
    destruct (hasAllFields (trim g)); [|exact IH].
    intros [= <-]. apply trim_idempotent.
  - intros H. split; [now apply fallbackScan_isSubstring|].
    unfold fallbackScan in H. destruct (_ && _); [|discriminate].
    destruct (scanLines _ _ _ _) as [[a|] [b|]]; try discriminate.
    injection H as <-. apply trim_idempotent.
Qed.

Lemma extractYamlFromText_part_of_text_witness :
  isSubstring completeBody wholeBlock /\ trim completeBody = completeBody.
Proof.
  apply (extractYamlFromText_part_of_text wholeBlock completeBody).
  vm_compute. reflexivity.
Defined.

Lemma extractYamlFromText_includes_scanKeys (text y key : string) :
  extractYamlFromText text = Some y -> In key scanKeys ->
  includes text key = true.
Proof.
  intros E Hk. destruct (extractYamlFromText_cases text y E) as [[Hp Hall] | [_ Hf]].
  - apply includes_isSubstring with y; [now apply tryPatterns_isSubstring with patterns|].
    apply Hall. unfold scanKeys, requiredKeys in *. cbn [In] in *. tauto.
  - now apply fallbackScan_scanKeys with y.
Qed.

(** X2.  A text that lacks one of the keys [project_name:], [features:],
    [tech_stack:], [users:] and [goal:] never yields a specification: both
    the fenced patterns and the scan without code blocks need all five in the
    text. *)
Theorem extractYamlFromText_needs_scanKeys (text key : string) :
  In key scanKeys -> includes text key = false ->
  extractYamlFromText text = None.
Proof.
  intros Hk Hmiss. destruct (extractYamlFromText text) as [y|] eqn:E; [|reflexivity].
  pose proof (extractYamlFromText_includes_scanKeys text y key E Hk). congruence.
Qed.

Lemma extractYamlFromText_needs_scanKeys_witness :
  extractYamlFromText
    ("```yaml" +:+ nl +:+ "project_name: A" +:+ nl +:+ "features: [f]" +:+ nl +:+ "```")
  = None.
Proof.
  apply (extractYamlFromText_needs_scanKeys _ "users:").
  - cbn. tauto.
  - reflexivity.
Defined.

Lemma cut_unfold (s sub : string) :
  cut s sub =
  if startsWith s sub then Some (EmptyString, dropLen sub s)
  else match s with
       | EmptyString => None
       | String c s' =>
           match cut s' sub with
           | Some (before, after) => Some (String c before, after)
           | None => None
           end
       end.
Proof. destruct s; reflexivity. Qed.

Lemma startsWith_app (sub b : string) : startsWith (sub +:+ b) sub = true.
Proof. apply startsWith_spec. now exists b. Qed.

Lemma dropLen_app (sub b : string) : dropLen sub (sub +:+ b) = b.
Proof.
  induction sub as [|c sub IH]; [now destruct b|].
  rewrite append_String. exact IH.
Qed.

Lemma cut_at_start (sub b : string) :
  cut (sub +:+ b) sub = Some (EmptyString, b).
Proof. now rewrite cut_unfold, startsWith_app, dropLen_app. Qed.

(** The first occurrence of a text that begins with a backtick lies behind
    any text without backtick. *)
Lemma cut_after_noBacktick (pre sub b : string) :
  noBacktick pre = true ->
  cut (pre +:+ String "`" sub +:+ b) (String "`" sub) = Some (pre, b).
Proof.
  induction pre as [|c pre IH]; intros Hpre.
  - exact (cut_at_start (String "`" sub) b).
  - cbn [noBacktick] in Hpre. apply andb_true_iff in Hpre as [Hc Hpre].
    rewrite append_String, cut_unfold. cbn [startsWith].
    rewrite Ascii.eqb_sym. apply negb_true_iff in Hc. rewrite Hc. cbn [andb].
    now rewrite IH.
Qed.

Lemma startsWith_fence_noBacktick (y b : string) :
  noBacktick y = true -> startsWith (y +:+ nl +:+ b) "```" = false.
Proof.
  destruct y as [|d y]; [reflexivity|]. cbn [noBacktick].
  intros H. apply andb_true_iff in H as [Hd _]. apply negb_true_iff in Hd.
  rewrite append_String. cbn [startsWith]. rewrite Ascii.eqb_sym, Hd. reflexivity.
Qed.

(** The first line break followed by a fence lies behind any text without
    backtick. *)
Lemma cut_closing_fence (y post : string) :
  noBacktick y = true ->
  cut (y +:+ (nl +:+ "```") +:+ post) (nl +:+ "```") = Some (y, post).
Proof.
  induction y as [|c y IH]; intros Hy.
  - exact (cut_at_start (nl +:+ "```") post).
  - cbn [noBacktick] in Hy. apply andb_true_iff in Hy as [Hc Hy].
    rewrite append_String, cut_unfold.
    assert (Hs : startsWith (String c (y +:+ (nl +:+ "```") +:+ post))
                   (nl +:+ "```") = false).
    { change (nl +:+ "```") with (String "010" "```").
      cbn [startsWith]. apply andb_false_iff. right.
      change (String "010" "```" +:+ post) with (nl +:+ "```" +:+ post).
      now apply startsWith_fence_noBacktick. }
    rewrite Hs. now rewrite IH.
Qed.

Lemma truthy_trim (y : string) : truthy (trim y) = true -> truthy y = true.
Proof.
  destruct y; [discriminate | reflexivity].
Qed.

Lemma fenced_block_extracts (pre y post : string) :
  noBacktick pre = true -> noBacktick y = true ->
  hasAllFields (trim y) = true ->
  extractYamlFromText
    (pre +:+ ("```yaml" +:+ nl) +:+ y +:+ (nl +:+ "```") +:+ post)
  = Some (trim y).
Proof.
  intros Hpre Hy Hall.
  assert (Hty : truthy y = true).
  { apply truthy_trim. apply (includes_nonempty _ "project_name:"); [|reflexivity].
    unfold hasAllFields in Hall. rewrite !andb_true_iff in Hall. tauto. }
  unfold extractYamlFromText, patterns. cbn [tryPatterns matchGroup1].
  unfold matchBetween.
  change ("```yaml" +:+ nl) with (String "`" ("``yaml" +:+ nl)).
  rewrite cut_after_noBacktick by assumption.
  rewrite cut_closing_fence by assumption.
  now rewrite Hty, Hall.
Qed.

(** X3.  A complete specification in a [yaml] fence is extracted exactly:
    when neither the text in front of the fence nor the specification holds
    a backtick, the result is the specification, trimmed, whatever follows
    the closing fence. *)
Theorem extractYamlFromText_fenced_block (pre y post : string) :
  noBacktick pre = true -> noBacktick y = true ->
  hasAllFields (trim y) = true ->
  extractYamlFromText
    (pre +:+ ("```yaml" +:+ nl) +:+ y +:+ (nl +:+ "```") +:+ post)
  = Some (trim y).
Proof. exact (fenced_block_extracts pre y post). Qed.

Lemma extractYamlFromText_fenced_block_witness :
  extractYamlFromText
    ("Here it is: " +:+ ("```yaml" +:+ nl) +:+ completeBody +:+ (nl +:+ "```")
     +:+ " How does that look?")
  = Some completeBody.
Proof.
  apply (extractYamlFromText_fenced_block "Here it is: " completeBody
           " How does that look?"); reflexivity.
Defined.

(** X4.  A specification found by the fenced patterns always passes the
    pre-validation of the session manager, and is handed on unchanged: no
    default [ui_style] line is appended. *)
Theorem fenced_specification_is_valid (text y : string) :
  tryPatterns patterns text = Some y ->
  validateYamlPrompt y = {| isValid := true; errors := []; processed := Some y |}.
Proof.
  intros H. apply tryPatterns_hasAllFields in H.
  unfold hasAllFields in H. rewrite !andb_true_iff in H.
  destruct H as [[[[[[H1 _] _] _] H5] H6] H7].
  unfold validateYamlPrompt. now rewrite H1, H5, H6, H7.
Qed.

Lemma fenced_specification_is_valid_witness :
  validateYamlPrompt completeBody =
  {| isValid := true; errors := []; processed := Some completeBody |}.
Proof.
  apply (fenced_specification_is_valid wholeBlock). vm_compute. reflexivity.
Defined.

(** X5.  An assistant message whose own text yields a specification is
    never shown: [hasYamlContent] holds for it, so the handler does not
    forward it to the browser.  This is a matter of the text of the message
    alone: an assistant message for which [hasYamlContent] does not hold is
    forwarded to an open socket, whatever the buffer holds, so also when it
    closes a buffered block and the extraction then succeeds on the
    buffer. *)
Theorem extracted_text_is_withheld :
  (forall content y,
     extractYamlFromText content = Some y ->
     hasYamlContent content = true /\
     forall t browserWs random run w,
       trace (store (onConversationText "assistant" content t browserWs random
                       run w))
       = trace (store w)) /\
  (forall content t random run w,
     hasYamlContent content = false ->
     trace (store (onConversationText "assistant" content t (Some true) random
                     run w))
     = trace (store w) ++ [Send (Text "assistant" content)]).
Proof.
  split.
  - intros content y H.
    assert (Hk : includes content "project_name:" = true).
    { apply (extractYamlFromText_includes_scanKeys content y);
        [exact H | cbn; tauto]. }
    assert (Hy : hasYamlContent content = true).
    { unfold hasYamlContent. rewrite Hk. now rewrite orb_true_r. }
    split; [exact Hy|]. intros t browserWs random run w.
    unfold onConversationText. cbn [String.eqb Ascii.eqb Bool.eqb]. cbn match.
    rewrite Hy. cbn [andb]. reflexivity.
  - intros content t random run w Hy.
    unfold onConversationText. cbn [String.eqb Ascii.eqb Bool.eqb]. cbn match.
    rewrite Hy. cbn [andb]. reflexivity.
Qed.

Lemma extracted_text_is_withheld_witness :
  hasYamlContent genericBlock = true.
Proof.
  apply (proj1 extracted_text_is_withheld genericBlock completeBody).
  vm_compute. reflexivity.
Defined.

(** The closing fence of a buffered block is forwarded, and with it the
    specification of the buffer is bound. *)
Example closing_fence_is_forwarded :
  let w := {| conversationState :=
                setYamlBuffer (Some ("```yaml" +:+ nl +:+ completeBody))
                  initialState;
              store := emptyStore |} in
  let w' := onConversationText "assistant" "```" 1000 (Some true) "k3j9x2m1p"
              successfulRun w in
  hasYamlContent "```" = false /\
  lastYamlPrompt (conversationState w') = Some completeBody /\
  trace (store w') = [Send (Text "assistant" "```")].
Proof. repeat split; vm_compute; reflexivity. Qed.

(** ** The YAML buffer over several messages *)

Lemma no_fence_no_yaml_marker (m : string) :
  includes m "```" = false -> includes m "```yaml" = false.
Proof.
  intros H. destruct (includes m "```yaml") eqn:E; [|reflexivity].
  rewrite (includes_trans m "```yaml" "```" E eq_refl) in H. discriminate.
Qed.

Lemma setYamlBuffer_applyExtraction (b b' : option string) (t : string)
    (c : ConversationState) :
  setYamlBuffer b (applyExtraction t (setYamlBuffer b' c)) =
  setYamlBuffer b (applyExtraction t c).
Proof.
  unfold applyExtraction. destruct (extractYamlFromText t) as [y|]; [|reflexivity].
  now destruct (truthy y).
Qed.

Lemma truthy_append (a b : string) : truthy a = true -> truthy (a +:+ b) = true.
Proof. now destruct a. Qed.

Lemma trackYaml_extends (b m : string) (c : ConversationState) :
  truthy b = true -> extendsBlock m = true ->
  trackYaml m (setYamlBuffer (Some b) c) =
  setYamlBuffer (Some (appendFragment b m)) c.
Proof.
  intros Hb Hm. unfold extendsBlock in Hm. apply andb_true_iff in Hm as [Hf Hp].
  apply negb_true_iff in Hf, Hp. unfold trackYaml.
  rewrite (no_fence_no_yaml_marker m Hf). cbn [yamlBuffer setYamlBuffer].
  rewrite Hb, Hf. unfold movesOn in Hp. now rewrite Hp.
Qed.

Lemma trackYaml_closes (b f : string) (c : ConversationState) :
  truthy b = true -> closesBlock f = true ->
  trackYaml f (setYamlBuffer (Some b) c) =
  setYamlBuffer None (applyExtraction (appendFragment b f) c).
Proof.
  intros Hb Hf. unfold closesBlock in Hf. apply andb_true_iff in Hf as [Hy Hc].
  apply negb_true_iff in Hy. unfold trackYaml. rewrite Hy.
  cbn [yamlBuffer setYamlBuffer]. rewrite Hb.
  destruct (includes f "```"); [apply setYamlBuffer_applyExtraction|].
  cbn [orb] in Hc. unfold movesOn in Hc. rewrite Hc.
  now rewrite 2!setYamlBuffer_applyExtraction.
Qed.

Lemma joinLines_snoc (l : list string) (a x : string) :
  joinLines ((a :: l) ++ [x]) = appendFragment (joinLines (a :: l)) x.
Proof. unfold appendFragment. now rewrite joinLines_app. Qed.

Lemma feed_extends (ms : list string) : forall (b : string) (c : ConversationState),
  truthy b = true -> Forall (fun m => extendsBlock m = true) ms ->
  feed ms (setYamlBuffer (Some b) c) =
  setYamlBuffer (Some (foldl appendFragment b ms)) c.
Proof.
  induction ms as [|m ms IH]; intros b c Hb Hms; [reflexivity|].
  apply Forall_cons in Hms as [Hm Hms]. unfold feed in *. cbn [foldl].
  rewrite trackYaml_extends by assumption.
  apply IH; [|exact Hms]. unfold appendFragment. now apply truthy_append.
Qed.

Lemma foldl_appendFragment (ms : list string) : forall a l,
  foldl appendFragment (joinLines (a :: l)) ms = joinLines ((a :: l) ++ ms).
Proof.
  induction ms as [|m ms IH]; intros a l; cbn [foldl].
  - now rewrite app_nil_r.
  - rewrite <- joinLines_snoc. change ((a :: l) ++ [m]) with (a :: (l ++ [m])).
    rewrite IH. change ((a :: (l ++ [m])) ++ ms) with (a :: ((l ++ [m]) ++ ms)).
    now rewrite <- app_assoc.
Qed.

(** X6.  A block spread over any number of assistant messages is put together
    with line breaks.  After the message with the [```yaml] marker and
    fragments without fence and without moving-on phrase, the buffer holds
    them joined by ["\n"] and neither the phase nor the bound specification
    has changed; a last fragment with a fence or with a moving-on phrase
    then runs the extraction on the whole joined text and clears the buffer. *)
Theorem buffer_accumulates_fragments
    (f1 : string) (ms : list string) (f2 : string) (c : ConversationState) :
  includes f1 "```yaml" = true ->
  Forall (fun m => extendsBlock m = true) ms ->
  closesBlock f2 = true ->
  feed (f1 :: ms) c = setYamlBuffer (Some (joinLines (f1 :: ms))) c /\
  feed (f1 :: ms ++ [f2]) c =
    setYamlBuffer None (applyExtraction (joinLines (f1 :: ms ++ [f2])) c).
Proof.
  intros H1 Hms H2.
  assert (Ht : truthy f1 = true) by (eapply includes_nonempty; eauto).
  assert (Hstart : trackYaml f1 c = setYamlBuffer (Some f1) c).
  { unfold trackYaml. now rewrite H1. }
  assert (Hacc : feed (f1 :: ms) c = setYamlBuffer (Some (joinLines (f1 :: ms))) c).
  { unfold feed. cbn [foldl]. rewrite Hstart.
    change (foldl (fun c0 m => trackYaml m c0) (setYamlBuffer (Some f1) c) ms)
      with (feed ms (setYamlBuffer (Some f1) c)).
    rewrite feed_extends by assumption.
    pose proof (foldl_appendFragment ms f1 []) as Hj.
    change (joinLines [f1]) with f1 in Hj. change ([f1] ++ ms) with (f1 :: ms) in Hj.
    now rewrite Hj. }
  split; [exact Hacc|].
  change (f1 :: ms ++ [f2]) with ((f1 :: ms) ++ [f2]).
  unfold feed in *. rewrite foldl_app, Hacc. cbn [foldl].
  rewrite trackYaml_closes; [now rewrite joinLines_snoc | | exact H2].
  destruct ms; cbn; [exact Ht|]. now apply truthy_append.
Qed.

Lemma buffer_accumulates_fragments_witness :
  lastYamlPrompt
    (feed [ "```yaml" +:+ nl +:+ "project_name: A" +:+ nl +:+ "project_description: d";
            "users: [x]" +:+ nl +:+ "goal: [g]" +:+ nl +:+ "features: [f]";
            "tech_stack:" +:+ nl +:+ "  frontend: y" +:+ nl +:+ "ui_style: s";
            "Would you like to edit this prompt?" ] initialState)
  = Some (completeBody +:+ nl +:+ "Would you like to edit this prompt?").
Proof.
  pose proof (proj2 (buffer_accumulates_fragments
    ("```yaml" +:+ nl +:+ "project_name: A" +:+ nl +:+ "project_description: d")
    [ "users: [x]" +:+ nl +:+ "goal: [g]" +:+ nl +:+ "features: [f]";
      "tech_stack:" +:+ nl +:+ "  frontend: y" +:+ nl +:+ "ui_style: s" ]
    "Would you like to edit this prompt?" initialState eq_refl
    ltac:(repeat constructor) eq_refl)) as H.
  etransitivity; [exact (f_equal lastYamlPrompt H) | vm_compute; reflexivity].
Defined.

Lemma append_assoc5 (a b c d e f : string) :
  (a +:+ b +:+ c +:+ d +:+ e) +:+ f = a +:+ b +:+ c +:+ d +:+ e +:+ f.
Proof. now rewrite !append_assoc. Qed.

Lemma includes_yaml_marker (pre rest : string) :
  includes (pre +:+ ("```yaml" +:+ nl) +:+ rest) "```yaml" = true.
Proof.
  apply includes_spec. exists pre, (nl +:+ rest).
  now rewrite <- (append_assoc "```yaml" nl rest).
Qed.

(** X7.  A complete [yaml]-fenced block that arrives in one message is not
    extracted by that message: it only opens the buffer, and the phase and
    the bound specification stay as they were.  The specification is bound,
    and the phase becomes [prompt_review], with the next assistant message
    that has a fence or a moving-on phrase. *)
Theorem complete_block_waits_for_next_message
    (pre y post m : string) (c : ConversationState) :
  noBacktick pre = true -> noBacktick y = true ->
  hasAllFields (trim y) = true ->
  closesBlock m = true ->
  let block := pre +:+ ("```yaml" +:+ nl) +:+ y +:+ (nl +:+ "```") +:+ post in
  extractYamlFromText block = Some (trim y) /\
  trackYaml block c = setYamlBuffer (Some block) c /\
  trackYaml m (trackYaml block c) =
    {| phase := prompt_review; lastYamlPrompt := Some (trim y);
       sessionId := sessionId c; yamlBuffer := None |}.
Proof.
  intros Hpre Hy Hall Hm block.
  assert (Hb : trackYaml block c = setYamlBuffer (Some block) c).
  { unfold trackYaml, block. now rewrite includes_yaml_marker. }
  split; [now apply fenced_block_extracts|]. split; [exact Hb|].
  rewrite Hb, trackYaml_closes; [| |exact Hm].
  - assert (He : extractYamlFromText (appendFragment block m) = Some (trim y)).
    { unfold appendFragment, block.
      rewrite (append_assoc5 pre _ y _ post (nl +:+ m)).
      now apply fenced_block_extracts. }
    rewrite (applyExtraction_success _ (trim y) c He); [reflexivity|].
    apply (includes_nonempty _ "project_name:"); [|reflexivity].
    unfold hasAllFields in Hall. rewrite !andb_true_iff in Hall. tauto.
  - apply (includes_nonempty block "```yaml"); [|reflexivity].
    apply includes_yaml_marker.
Qed.

Lemma complete_block_waits_for_next_message_witness :
  lastYamlPrompt (trackYaml wholeBlock initialState) = None /\
  lastYamlPrompt (trackYaml "Let me know what you think."
                    (trackYaml wholeBlock initialState)) = Some completeBody.
Proof.
  destruct (complete_block_waits_for_next_message "" completeBody ""
              "Let me know what you think." initialState
              eq_refl eq_refl eq_refl eq_refl) as (_ & H1 & H2).
  split.
  - change wholeBlock
      with ("" +:+ ("```yaml" +:+ nl) +:+ completeBody +:+ (nl +:+ "```") +:+ "").
    rewrite H1. reflexivity.
  - change wholeBlock
      with ("" +:+ ("```yaml" +:+ nl) +:+ completeBody +:+ (nl +:+ "```") +:+ "").
    rewrite H2. reflexivity.
Defined.

(** ** The session manager: invariant, frame and composition *)

Lemma startCodeGeneration_fields yaml sid browserWs i run s :
  let s' := fst (startCodeGeneration yaml sid browserWs i run s) in
  exists g,
    heap s' = heap s ++ [g] /\
    (activeGenerations s' = <[sid := length (heap s)]> (activeGenerations s) \/
     activeGenerations s' = delete sid (activeGenerations s)).
Proof.
  cbn zeta. destruct browserWs; [rewrite startCodeGeneration_null; cbn; eauto|].
  destruct (isValid (validateYamlPrompt yaml)) eqn:Hv.
  - pose proof (startCodeGeneration_valid yaml sid i run s Hv) as H. cbn zeta in H.
    destruct (outcome run); [destruct H as (Hh & Ha & _); eauto|].
    destruct H as (Hh & H).
    destruct (cleanupError run); destruct H as (Ha & _); eauto.
  - rewrite (startCodeGeneration_invalid yaml sid i run s Hv). cbv zeta.
    destruct (cleanupError run); cbn; eauto.
Qed.

Lemma wellFormed_insert (sid : string) (g : GenerationSession) (h : list GenerationSession)
    (m : gmap string nat) :
  (forall k l, m !! k = Some l -> l < length h) ->
  (forall k1 k2 l, m !! k1 = Some l -> m !! k2 = Some l -> k1 = k2) ->
  (forall k l, <[sid := length h]> m !! k = Some l -> l < length (h ++ [g])) /\
  (forall k1 k2 l, <[sid := length h]> m !! k1 = Some l ->
                   <[sid := length h]> m !! k2 = Some l -> k1 = k2).
Proof.
  intros Hb Hi. split.
  - intros k l. rewrite length_app. cbn. rewrite lookup_insert.
    case_decide; [intros [= <-]; lia | intros Hk%Hb; lia].
  - intros k1 k2 l. rewrite !lookup_insert.
    repeat case_decide; subst; try congruence.
    + intros [= <-] Hk%Hb. lia.
    + intros Hk%Hb [= <-]. lia.
    + apply Hi.
Qed.

Lemma wellFormed_delete (sid : string) (h h' : list GenerationSession)
    (m : gmap string nat) :
  length h <= length h' ->
  (forall k l, m !! k = Some l -> l < length h) ->
  (forall k1 k2 l, m !! k1 = Some l -> m !! k2 = Some l -> k1 = k2) ->
  (forall k l, delete sid m !! k = Some l -> l < length h') /\
  (forall k1 k2 l, delete sid m !! k1 = Some l ->
                   delete sid m !! k2 = Some l -> k1 = k2).
Proof.
  intros Hl Hb Hi. split.
  - intros k l [_ H]%lookup_delete_Some. apply Hb in H. lia.
  - intros k1 k2 l [_ H1]%lookup_delete_Some [_ H2]%lookup_delete_Some.
    now apply Hi with l.
Qed.

Lemma startCodeGeneration_wellFormed yaml sid browserWs i run s :
  wellFormed s -> wellFormed (fst (startCodeGeneration yaml sid browserWs i run s)).
Proof.
  intros [Hb Hi]. destruct (startCodeGeneration_fields yaml sid browserWs i run s)
    as (g & Hh & [Ha | Ha]); unfold wellFormed; rewrite Hh, Ha.
  - now apply wellFormed_insert.
  - apply wellFormed_delete with (heap s); [rewrite length_app; lia | |]; assumption.
Qed.

Lemma cancelCodeGeneration_wellFormed sid i s :
  wellFormed s -> wellFormed (fst (cancelCodeGeneration sid i s)).
Proof.
  intros [Hb Hi]. pose proof (cancelCodeGeneration_fields sid i s) as H.
  cbn zeta in H. destruct (activeGenerations s !! sid) as [l|].
  - destruct H as (Hh & Ha & _). unfold wellFormed. rewrite Hh, Ha.
    apply wellFormed_delete with (heap s); [now rewrite length_alter | |]; assumption.
  - destruct H as [-> _]. now split.
Qed.

Lemma cleanupStaleGenerations_wellFormed maxAge t s :
  wellFormed s -> wellFormed (fst (cleanupStaleGenerations maxAge t s)).
Proof.
  intros [Hb Hi]. unfold cleanupStaleGenerations.
  destruct (sweep_loop (cutoffDate maxAge t)
              (map_to_list (activeGenerations s)) s 0)
    as (Hh & Ha & _).
  { apply NoDup_fst_map_to_list. }
  { intros k l H. now apply elem_of_map_to_list. }
  assert (Hsub : forall k l,
            activeGenerations (fst (foldl (sweepEntry (cutoffDate maxAge t)) (s, 0)
                                      (map_to_list (activeGenerations s)))) !! k = Some l ->
            activeGenerations s !! k = Some l).
  { intros k l. rewrite Ha. now destruct (bool_decide _). }
  split.
  - intros k l H%Hsub. rewrite Hh. now apply Hb with k.
  - intros k1 k2 l H1%Hsub H2%Hsub. now apply Hi with l.
Qed.

Lemma sendIfOpen_fields (browserWs : option bool) (m : BrowserMsg) (s : Store) :
  heap (sendIfOpen browserWs m s) = heap s /\
  activeGenerations (sendIfOpen browserWs m s) = activeGenerations s /\
  generated (sendIfOpen browserWs m s) = generated s.
Proof. now destruct browserWs as [[]|]. Qed.

Lemma sendIfOpen_wellFormed (browserWs : option bool) (m : BrowserMsg) (s : Store) :
  wellFormed s -> wellFormed (sendIfOpen browserWs m s).
Proof. now destruct browserWs as [[]|]. Qed.

Lemma registerSession_wellFormed yaml sid t s :
  wellFormed s -> wellFormed (snd (registerSession yaml sid t s)).
Proof.
  intros [Hb Hi]. unfold registerSession, wellFormed. cbn.
  now apply wellFormed_insert.
Qed.

Lemma emptyStore_wellFormed : wellFormed emptyStore.
Proof. split; cbn; intros * H; rewrite lookup_empty in H; discriminate. Qed.

Lemma onConversationText_wellFormed role content t browserWs random run w :
  wellFormed (store w) ->
  wellFormed (store (onConversationText role content t browserWs random run w)).
Proof.
  intros Hw. unfold onConversationText.
  set (s := if String.eqb role "assistant"
            then if hasYamlContent content then _ else _ else _).
  assert (Hs : wellFormed s).
  { subst s. destruct (String.eqb role "assistant");
      [destruct (hasYamlContent content)|];
      try apply sendIfOpen_wellFormed; exact Hw. }
  clearbody s. set (c := if String.eqb role "assistant" then _ else _).
  clearbody c.
  destruct (String.eqb role "user" && Phase_eqb (phase c) prompt_review
            && present (lastYamlPrompt c) && detectYamlApproval content).
  + unfold runGeneration, beginGeneration. cbn [store conversationState].
    destruct browserWs as [isOpen|].
    * pose proof (startCodeGeneration_wellFormed
                    (default EmptyString (lastYamlPrompt c))
                    (generateSessionId t random) SocketObject
                    {| now := t; wsOpen := isOpen |}
                    run (sendIfOpen (Some isOpen)
                           (PhaseTransition "code_generation"
                              (generateSessionId t random)) s)
                    (sendIfOpen_wellFormed _ _ _ Hs)) as H.
      destruct (startCodeGeneration _ _ SocketObject _ _ _) as [s' [r|e]]; cbn [fst] in H.
      -- now destruct (success r).
      -- exact H.
    * rewrite startCodeGeneration_null. cbn [store].
      apply (registerSession_wellFormed _ _ t). exact Hs.
  + destruct (String.eqb role "user"
              && (Phase_eqb (phase c) prompt_review || Phase_eqb (phase c) ideation)
              && detectYamlApproval content); cbn [store];
      [now apply sendIfOpen_wellFormed | exact Hs].
Qed.

(** X8.  The registry stays well formed: from the empty store on, every
    entry refers to an existing session object and no two identifiers share
    an object, whatever [startCodeGeneration], [cancelCodeGeneration],
    [cleanupStaleGenerations] and the message handler do. *)
Theorem registry_wellFormed_preserved :
  wellFormed emptyStore /\
  (forall yaml sid browserWs i run s,
     wellFormed s ->
     wellFormed (fst (startCodeGeneration yaml sid browserWs i run s))) /\
  (forall sid i s,
     wellFormed s -> wellFormed (fst (cancelCodeGeneration sid i s))) /\
  (forall maxAge t s,
     wellFormed s -> wellFormed (fst (cleanupStaleGenerations maxAge t s))) /\
  (forall role content t browserWs random run w,
     wellFormed (store w) ->
     wellFormed (store (onConversationText role content t browserWs random run w))).
Proof.
  split; [|split; [|split; [|split]]].
  - apply emptyStore_wellFormed.
  - apply startCodeGeneration_wellFormed.
  - apply cancelCodeGeneration_wellFormed.
  - apply cleanupStaleGenerations_wellFormed.
  - apply onConversationText_wellFormed.
Qed.

Lemma registry_wellFormed_preserved_witness :
  wellFormed (store afterApproval).
Proof.
  unfold afterApproval, afterReview.
  do 2 apply (proj2 (proj2 (proj2 (proj2 registry_wellFormed_preserved)))).
  apply (proj1 registry_wellFormed_preserved).
Defined.

(** X9.  Starting or cancelling the generation of one session leaves every
    other registered session as it was: [getGenerationStatus] of another
    identifier returns the same session before and after. *)
Theorem other_sessions_untouched (sid sid' : string) (s : Store) :
  wellFormed s -> sid' <> sid ->
  (forall yaml browserWs i run,
     getGenerationStatus sid' (fst (startCodeGeneration yaml sid browserWs i run s))
     = getGenerationStatus sid' s) /\
  (forall i,
     getGenerationStatus sid' (fst (cancelCodeGeneration sid i s))
     = getGenerationStatus sid' s).
Proof.
  intros [Hb Hi] Hne. split.
  - intros yaml browserWs i run.
    destruct (startCodeGeneration_fields yaml sid browserWs i run s) as (g & Hh & Ha).
    unfold getGenerationStatus. rewrite Hh.
    assert (Hl : activeGenerations (fst (startCodeGeneration yaml sid browserWs i run s)) !! sid'
                 = activeGenerations s !! sid').
    { destruct Ha as [-> | ->];
        [now rewrite lookup_insert_ne | now rewrite lookup_delete_ne]. }
    rewrite Hl. destruct (activeGenerations s !! sid') as [l|] eqn:E; [|reflexivity].
    cbn. apply lookup_app_l. now apply Hb with sid'.
  - intros i. pose proof (cancelCodeGeneration_fields sid i s) as H. cbn zeta in H.
    destruct (activeGenerations s !! sid) as [l|] eqn:El.
    + destruct H as (Hh & Ha & _). unfold getGenerationStatus.
      rewrite Hh, Ha, lookup_delete_ne by congruence.
      destruct (activeGenerations s !! sid') as [l'|] eqn:E; [|reflexivity].
      cbn. apply list_lookup_alter_ne. intros ->. apply Hne. now apply Hi with l'.
    + destruct H as [-> _]. reflexivity.
Qed.

Lemma other_sessions_untouched_witness :
  getGenerationStatus "session-2000-k3j9x2m1p"
    (fst (cancelCodeGeneration "session-1" {| now := 9000; wsOpen := true |}
            (store afterApproval)))
  = getGenerationStatus "session-2000-k3j9x2m1p" (store afterApproval).
Proof.
  apply (other_sessions_untouched "session-1" "session-2000-k3j9x2m1p").
  - unfold afterApproval, afterReview.
    do 2 apply onConversationText_wellFormed. apply emptyStore_wellFormed.
  - discriminate.
Defined.

(** X10.  The sweep is idempotent: a second [cleanupStaleGenerations] at the
    same time and with the same age limit removes nothing, returns 0 and
    leaves the store, the trace included, as the first one left it. *)
Theorem cleanupStaleGenerations_idempotent (maxAge : Number) (t : Z) (s : Store) :
  let s1 := fst (cleanupStaleGenerations maxAge t s) in
  cleanupStaleGenerations maxAge t s1 = (s1, 0).
Proof.
  cbn zeta. unfold cleanupStaleGenerations at 1.
  set (cutoff := cutoffDate maxAge t).
  set (s1 := fst (cleanupStaleGenerations maxAge t s)).
  apply sweep_nothing_stale. intros k l Hin. apply elem_of_map_to_list in Hin.
  subst s1. unfold cleanupStaleGenerations in *. fold cutoff in Hin |- *.
  destruct (sweep_loop cutoff (map_to_list (activeGenerations s)) s 0)
    as (Hh & Ha & _).
  { apply NoDup_fst_map_to_list. }
  { intros k' l' H. now apply elem_of_map_to_list. }
  rewrite Hh. rewrite Ha in Hin.
  destruct (bool_decide (k ∈ staleIds cutoff (heap s)
                               (map_to_list (activeGenerations s)))) eqn:Eb;
    [discriminate|].
  apply bool_decide_eq_false_1 in Eb.
  destruct (isStale cutoff (heap s) l) eqn:Est; [|reflexivity].
  exfalso. apply Eb. apply elem_of_staleIds. exists l.
  split; [now apply elem_of_map_to_list | exact Est].
Qed.

Lemma trace_onCallback l sid s ic :
  trace (onCallback l sid s ic) = trace s ++ callbackEffects sid ic.
Proof.
  destruct ic as [i [chunk|tree|url|message]]; unfold onCallback, callbackEffects;
    rewrite emitEvent_eq; reflexivity.
Qed.

Lemma trace_foldl_onCallback l sid cbs s :
  trace (foldl (onCallback l sid) s cbs) =
  trace s ++ flat_map (callbackEffects sid) cbs.
Proof.
  revert s. induction cbs as [|ic cbs IH]; intros s; cbn [foldl flat_map].
  - now rewrite app_nil_r.
  - rewrite IH, trace_onCallback. now rewrite <- app_assoc.
Qed.

Lemma startTime_sessionAfterCallbacks (cbs : list (Instant * Callback))
    (g : GenerationSession) :
  startTime (foldl sessionAfterCallback g cbs) = startTime g.
Proof.
  revert g. induction cbs as [|[i c] cbs IH]; intros g; [reflexivity|].
  cbn [foldl]. rewrite IH. now destruct c.
Qed.

Lemma validateYamlPrompt_processedPrompt yaml :
  isValid (validateYamlPrompt yaml) = true ->
  processed (validateYamlPrompt yaml) = Some (processedPrompt yaml).
Proof.
  unfold validateYamlPrompt, processedPrompt. cbn.
  destruct (_ ++ _); [reflexivity | discriminate].
Qed.

Lemma startCodeGeneration_valid_trace yaml sid i run s :
  isValid (validateYamlPrompt yaml) = true ->
  trace (fst (startCodeGeneration yaml sid SocketObject i run s)) =
  trace s ++ emitted i "codegen-start" sid (StartData yaml) ++
  emitted i "codegen-validation-passed" sid NoData ++
  [RunCodegen (Some (processedPrompt yaml)) sid] ++
  flat_map (callbackEffects sid) (callbacks run) ++
  finalEffects sid (now i) run /\
  generated (fst (startCodeGeneration yaml sid SocketObject i run s)) =
  match outcome run with
  | Resolved _ _ => dirsAfterRun sid run s
  | Rejected _ =>
      match cleanupError run with
      | Some _ => dirsAfterRun sid run s
      | None => dirsAfterRun sid run s ∖ {[sid]}
      end
  end.
Proof.
  intros Hv. unfold startCodeGeneration, registerSession.
  rewrite Hv. cbn [negb].
  rewrite (validateYamlPrompt_processedPrompt yaml Hv).
  rewrite !emitEvent_eq.
  set (s1 := log _ (Build_Store _ _ _ _)).
  destruct (foldl_onCallback_fields (length (heap s)) sid (callbacks run) s1)
    as (Hh & Ha & Hg).
  pose proof (trace_foldl_onCallback (length (heap s)) sid (callbacks run) s1) as Ht.
  assert (Hh1 : heap s1 = heap s ++ [newSession generating yaml (now i)]).
  { subst s1. cbn. unfold update, setHeap, setActive. cbn. now rewrite alter_last. }
  assert (Ht1 : trace s1 = trace s ++ emitted i "codegen-start" sid (StartData yaml) ++
                   emitted i "codegen-validation-passed" sid NoData ++
                   [RunCodegen (Some (processedPrompt yaml)) sid]).
  { subst s1. cbn. now rewrite <- !app_assoc. }
  assert (Hg1 : generated s1 = generated s) by (subst s1; reflexivity).
  rewrite Hh1, alter_last in Hh. rewrite Ht1 in Ht. rewrite Hg1 in Hg.
  set (s2 := foldl _ s1 _) in *.
  set (s3 := if createsDir run then _ else s2).
  assert (Hh3 : heap s3 = heap s2) by (subst s3; now destruct (createsDir run)).
  assert (Ht3 : trace s3 = trace s2) by (subst s3; now destruct (createsDir run)).
  assert (Hg3 : generated s3 = dirsAfterRun sid run s).
  { subst s3. unfold dirsAfterRun. destruct (createsDir run); cbn; now rewrite Hg. }
  unfold finalEffects. destruct (outcome run) as [url path|e].
  - rewrite emitEvent_eq. cbn [fst trace generated].
    unfold startTimeAt, update, setHeap. cbn [heap trace generated].
    rewrite Hh3, Hh, Ht3, Ht, alter_last.
    rewrite list_lookup_middle by reflexivity. cbn [startTime setRepoPath].
    rewrite startTime_sessionAfterCallbacks. cbn [startTime newSession].
    split; [now rewrite <- !app_assoc | exact Hg3].
  - rewrite onFailure_eq. cbv zeta. rewrite Hg3.
    destruct (cleanupError run);
      cbn [fst trace generated];
      unfold startTimeAt, update, setHeap; cbn [heap trace generated];
      rewrite Hh3, Hh, Ht3, Ht, alter_last;
      rewrite list_lookup_middle by reflexivity; cbn [startTime setStatus];
      rewrite startTime_sessionAfterCallbacks; cbn [startTime newSession];
      (split; [now rewrite <- !app_assoc | reflexivity]).
Qed.

(** X11.  The protocol of one generation.  [startCodeGeneration] first emits
    [codegen-start].  For a prompt that passes validation it then emits
    [codegen-validation-passed], calls the code generator exactly once, with
    the prompt completed by the default [ui_style] line when it has none,
    relays each callback as one event in the order of the callbacks, and ends
    with [codegen-complete] or with [codegen-error] and the cleanup, the
    duration being the time of settling minus the time of the start.  For a
    prompt that fails validation the code generator is not called. *)
Theorem startCodeGeneration_protocol yaml sid i run s :
  trace (fst (startCodeGeneration yaml sid SocketObject i run s)) =
  trace s ++ emitted i "codegen-start" sid (StartData yaml) ++
  if isValid (validateYamlPrompt yaml) then
    emitted i "codegen-validation-passed" sid NoData ++
    [RunCodegen (Some (processedPrompt yaml)) sid] ++
    flat_map (callbackEffects sid) (callbacks run) ++
    finalEffects sid (now i) run
  else
    emitted i "codegen-error" sid (ErrorData (validationMessage yaml) (Some 0%Z)) ++
    [CleanupSession sid].
Proof.
  destruct (isValid (validateYamlPrompt yaml)) eqn:Hv.
  - apply startCodeGeneration_valid_trace, Hv.
  - rewrite (startCodeGeneration_invalid yaml sid i run s Hv). cbv zeta.
    now destruct (cleanupError run).
Qed.

Lemma filter_emitted_closed i type sid data :
  List.filter (fun e => negb (isSend e)) (emitted i type sid data)
  = emitted (closedAt i) type sid data.
Proof. unfold emitted. now destruct (wsOpen i). Qed.

Lemma filter_callbackEffects_closed sid (cbs : list (Instant * Callback)) :
  List.filter (fun e => negb (isSend e)) (flat_map (callbackEffects sid) cbs)
  = flat_map (callbackEffects sid)
      (map (fun ic => (closedAt (fst ic), snd ic)) cbs).
Proof.
  induction cbs as [|[i c] cbs IH]; [reflexivity|]. cbn [flat_map map].
  rewrite List.filter_app, IH. f_equal.
  destruct c; unfold callbackEffects; cbn [fst snd]; apply filter_emitted_closed.
Qed.

Lemma foldl_sessionAfterCallback_closed (cbs : list (Instant * Callback))
    (g : GenerationSession) :
  foldl sessionAfterCallback g (map (fun ic => (closedAt (fst ic), snd ic)) cbs)
  = foldl sessionAfterCallback g cbs.
Proof.
  revert g. induction cbs as [|[i c] cbs IH]; intros g; [reflexivity|].
  cbn [map foldl]. now rewrite IH.
Qed.

(** X12.  Whether the browser socket is open changes what is sent and nothing
    else: with the socket closed throughout, [startCodeGeneration] returns
    the same result and leaves the same session objects, registry and
    directories, and its trace is the one of the open socket without the
    sends. *)
Theorem closed_socket_changes_only_sends yaml sid i run s :
  let r := startCodeGeneration yaml sid SocketObject i run s in
  let r' := startCodeGeneration yaml sid SocketObject (closedAt i) (closedRun run) s in
  snd r' = snd r /\
  heap (fst r') = heap (fst r) /\
  activeGenerations (fst r') = activeGenerations (fst r) /\
  generated (fst r') = generated (fst r) /\
  exists added,
    trace (fst r) = trace s ++ added /\
    trace (fst r') = trace s ++ List.filter (fun e => negb (isSend e)) added.
Proof.
  cbn zeta. destruct (isValid (validateYamlPrompt yaml)) eqn:Hv.
  - pose proof (startCodeGeneration_valid yaml sid i run s Hv) as H.
    pose proof (startCodeGeneration_valid yaml sid (closedAt i) (closedRun run) s Hv)
      as H'.
    destruct (startCodeGeneration_valid_trace yaml sid i run s Hv) as [Ht Hg].
    destruct (startCodeGeneration_valid_trace yaml sid (closedAt i) (closedRun run)
                s Hv) as [Ht' Hg'].
    cbn zeta in H, H'.
    change (cleanupError (closedRun run))
      with (cleanupError run) in H', Hg'.
    change (dirsAfterRun sid (closedRun run) s)
      with (dirsAfterRun sid run s) in Hg'.
    cbn [closedRun outcome callbacks createsDir] in H', Hg'.
    rewrite foldl_sessionAfterCallback_closed in H'. cbn [closedAt now] in H'.
    assert (Hgen : generated (fst (startCodeGeneration yaml sid SocketObject (closedAt i)
                                     (closedRun run) s))
                   = generated (fst (startCodeGeneration yaml sid SocketObject i run s)))
      by (now rewrite Hg, Hg').
    assert (Htr : exists added,
              trace (fst (startCodeGeneration yaml sid SocketObject i run s)) = trace s ++ added /\
              trace (fst (startCodeGeneration yaml sid SocketObject (closedAt i) (closedRun run) s))
              = trace s ++ List.filter (fun e => negb (isSend e)) added).
    { eexists. split; [exact Ht|]. rewrite Ht'.
      rewrite !List.filter_app, !filter_emitted_closed, filter_callbackEffects_closed.
      cbn [List.filter isSend negb closedRun callbacks]. do 4 f_equal.
      unfold finalEffects. cbn [closedRun outcome settled closedAt now].
      destruct (outcome run); [now rewrite filter_emitted_closed|].
      now rewrite List.filter_app, filter_emitted_closed. }
    destruct (outcome run) as [url path|e].
    + destruct H as (Hh & Ha & Hr), H' as (Hh' & Ha' & Hr').
      rewrite Hh, Hh', Ha, Ha', Hr, Hr'. repeat split; assumption.
    + destruct H as (Hh & H), H' as (Hh' & H').
      destruct (cleanupError run);
        destruct H as (Ha & Hr), H' as (Ha' & Hr');
        rewrite Hh, Hh', Ha, Ha', Hr, Hr'; repeat split; assumption.
  - rewrite (startCodeGeneration_invalid yaml sid i run s Hv),
      (startCodeGeneration_invalid yaml sid (closedAt i) (closedRun run) s Hv).
    cbv zeta.
    change (cleanupError (closedRun run))
      with (cleanupError run).
    destruct (cleanupError run);
      cbn [fst snd heap activeGenerations generated trace closedAt now];
      repeat split; eexists; (split; [reflexivity|]);
      rewrite !List.filter_app, !filter_emitted_closed; reflexivity.
Qed.



(** X14.  What an approval does to the conversation.  In [prompt_review] with
    a specification bound, an approving user message starts a generation
    under the minted identifier.  If it succeeds, the phase is
    [code_generation], the specification stays bound, and the identifier is
    stored and registered.  If the prompt fails validation or the code
    generator fails, the conversation is back in [ideation] without
    specification and without identifier, and the identifier is not
    registered (it stays registered only when [cleanupSession]
    throws).  With a [null] socket the conversation is reset
    as well, but the session object stays registered in status
    [starting]. *)
Theorem approval_outcome content t random run w yaml :
  phase (conversationState w) = prompt_review ->
  lastYamlPrompt (conversationState w) = Some yaml ->
  truthy yaml = true ->
  detectYamlApproval content = true ->
  let newId := generateSessionId t random in
  let ideationAgain :=
    {| phase := ideation; lastYamlPrompt := None; sessionId := None;
       yamlBuffer := yamlBuffer (conversationState w) |} in
  (forall isOpen,
     let w' := onConversationText "user" content t (Some isOpen) random run w in
     if generationSucceeds yaml run then
       conversationState w' =
         {| phase := code_generation; lastYamlPrompt := Some yaml;
            sessionId := Some newId;
            yamlBuffer := yamlBuffer (conversationState w) |} /\
       activeGenerations (store w') !! newId = Some (length (heap (store w)))
     else
       conversationState w' = ideationAgain /\
       activeGenerations (store w') !! newId =
         match cleanupError run with
         | Some _ => Some (length (heap (store w)))
         | None => None
         end) /\
  (let w' := onConversationText "user" content t None random run w in
   conversationState w' = ideationAgain /\
   getGenerationStatus newId (store w') = Some (newSession starting yaml t)).
Proof.
  intros Hp Hy Hty Happ newId ideationAgain. split.
  - intros isOpen w'. subst w'. unfold onConversationText.
    cbn [String.eqb Ascii.eqb Bool.eqb]. cbn match.
    unfold present. rewrite Hp, Hy, Hty, Happ. cbn match.
    unfold runGeneration, beginGeneration. cbn [store conversationState].
    change (default EmptyString (Some yaml)) with yaml. fold newId.
    set (s0 := sendIfOpen (Some isOpen) _ (sendIfOpen (Some isOpen) _ (store w))).
    assert (Hh0 : heap s0 = heap (store w)).
    { subst s0. now rewrite !(proj1 (sendIfOpen_fields _ _ _)). }
    clearbody s0. unfold generationSucceeds.
    destruct (isValid (validateYamlPrompt yaml)) eqn:Hv.
    + pose proof (startCodeGeneration_valid yaml newId
                    {| now := t; wsOpen := isOpen |} run s0 Hv) as H.
      cbn zeta in H.
      destruct (startCodeGeneration yaml newId SocketObject _ run s0) as [s' r].
      cbn [fst snd] in H.
      destruct (outcome run).
      * destruct H as (_ & Ha & ->). cbn.
        rewrite Ha, lookup_insert_eq, Hh0. unfold setPhase, setSessionId.
        cbn [phase lastYamlPrompt sessionId yamlBuffer]. now rewrite Hy.
      * destruct H as (_ & H).
        destruct (cleanupError run);
          destruct H as (Ha & ->); cbn.
        -- rewrite Ha, lookup_insert_eq, Hh0. now subst ideationAgain.
        -- rewrite Ha, lookup_delete_eq. now subst ideationAgain.
    + rewrite (startCodeGeneration_invalid yaml newId _ run s0 Hv). cbv zeta.
      destruct (cleanupError run); cbn.
      * rewrite lookup_insert_eq, Hh0. now subst ideationAgain.
      * rewrite lookup_delete_eq. now subst ideationAgain.
  - cbn zeta. unfold onConversationText.
    cbn [String.eqb Ascii.eqb Bool.eqb]. cbn match.
    unfold present. rewrite Hp, Hy, Hty, Happ. cbn [andb Phase_eqb]. cbn match.
    unfold runGeneration, beginGeneration, getGenerationStatus.
    change (default EmptyString (Some yaml)) with yaml.
    rewrite startCodeGeneration_null.
    cbn [store conversationState snd sendIfOpen setActive setHeap
         activeGenerations heap now]. fold newId.
    rewrite lookup_insert_eq. cbn. split; [now subst ideationAgain|].
    now rewrite list_lookup_middle.
Qed.

Lemma approval_outcome_witness :
  phase (conversationState
           (onConversationText "user" "yes" 2000 (Some true) "k3j9x2m1p"
              failingRun afterReview)) = ideation.
Proof.
  pose proof (proj1 (approval_outcome "yes" 2000 "k3j9x2m1p" failingRun afterReview
                       completeBody eq_refl eq_refl eq_refl eq_refl) true) as H.
  cbn zeta in H.
  change (generationSucceeds completeBody failingRun) with false in H.
  destruct H as [-> _]. reflexivity.
Defined.

(** ** The code generator and its callbacks *)

Lemma forallb_isProgress_created (files : list GeneratedFile) :
  forallb isProgress (map created files) = true.
Proof. induction files as [|f files IH]; [reflexivity | exact IH]. Qed.

Lemma forallb_isProgress_logs (logs : list string) :
  forallb isProgress (map OnLog logs) = true.
Proof. induction logs as [|x logs IH]; [reflexivity | exact IH]. Qed.

Lemma parseFiles_progress env response :
  forallb isProgress (fst (parseFiles env response)) = true.
Proof.
  unfold parseFiles. destruct (matchBraces response) as [json|]; [|reflexivity].
  now destruct (jsonParse env json).
Qed.

Ltac progress_list :=
  repeat rewrite forallb_app;
  repeat rewrite forallb_isProgress_created;
  repeat rewrite forallb_isProgress_logs;
  repeat match goal with H : forallb isProgress _ = true |- _ => rewrite H end;
  reflexivity.

(** The callbacks of the [try] block: progress reports only, followed on
    success by the announcement of the preview and one log line. *)
Lemma tryBlock_shape env model yaml sid :
  match tryBlock env model yaml sid with
  | (c, dir, inl (url, p)) =>
      p = repoDirOf env sid /\ dir = true /\
      exists logs, c = logs ++ [OnPreviewReady url;
                                OnLog ("Preview ready at: " +:+ url)] /\
                   forallb isProgress logs = true
  | (c, _, inr _) => forallb isProgress c = true
  end.
Proof.
  unfold tryBlock.
  destruct (createCompletion env model (userPrompt yaml)) as [response|e];
    [|reflexivity].
  destruct (present response); cbn [negb]; [|reflexivity].
  pose proof (parseFiles_progress env (default EmptyString response)) as Hp.
  destruct (parseFiles env (default EmptyString response)) as [c3 parsed].
  cbn [fst] in Hp.
  destruct parsed as [[|files|]|e]; try progress_list.
  destruct (writeProject env _ files) as [e|k e|e|tree]; try progress_list.
  fold (repoDirOf env sid).
  destruct (startLocalPreview env (repoDirOf env sid)) as [logs [url|e]];
    try progress_list.
  split; [reflexivity|]. split; [reflexivity|].
  eexists. split.
  - rewrite !app_assoc. reflexivity.
  - progress_list.
Qed.

Lemma runOpenAICodegen_shape env yaml sid :
  let ex := runOpenAICodegen env yaml sid in
  match result ex with
  | Resolved url p =>
      present (apiKey env) = true /\ p = repoDirOf env sid /\
      madeDir ex = true /\
      exists logs, calls ex = logs ++ [OnPreviewReady url;
                                       OnLog ("Preview ready at: " +:+ url)] /\
                   forallb isProgress logs = true
  | Rejected e =>
      if present (apiKey env)
      then exists logs, calls ex = logs ++ [OnError (messageOf e)] /\
                        forallb isProgress logs = true
      else calls ex = [] /\
           e = ErrorObject "Missing OPENAI_API_KEY environment variable"
  end.
Proof.
  unfold runOpenAICodegen.
  destruct (present (apiKey env)) eqn:Hk; cbn [negb]; [|now split].
  set (model := if present (codegenModel env) then _ else _).
  pose proof (tryBlock_shape env model yaml sid) as H.
  destruct (tryBlock env model yaml sid) as [[c dir] [[url p]|e]]; cbn.
  - destruct H as (-> & -> & logs & -> & Hl).
    split; [reflexivity|]. split; [reflexivity|]. split; [reflexivity|].
    exists (OnLog ("Starting OpenAI code generation with model: " +:+ model +:+ " ...")
            :: logs).
    split; [reflexivity | exact Hl].
  - exists (OnLog ("Starting OpenAI code generation with model: " +:+ model +:+ " ...")
            :: c).
    split; [reflexivity | exact H].
Qed.

(** X15.  The callbacks of the code generator.  Without an API key the
    promise is rejected before any callback.  Otherwise the first callback is
    the log line that names the model, which is [gpt-5] unless
    [OPENAI_CODEGEN_MODEL] is set; a resolved promise
    means that the directory of the session was created, that the returned
    path is the [repo] directory of the session, and that the callbacks are
    progress reports (logs and the file tree) followed by one announcement of
    the preview, with the returned address, and one last log line; a rejected
    promise means that the callbacks are progress reports followed by exactly
    one error callback, which carries the message of the value thrown. *)
Theorem runOpenAICodegen_callbacks env yaml sid :
  let ex := runOpenAICodegen env yaml sid in
  (if present (apiKey env)
   then exists rest,
          calls ex =
          OnLog ("Starting OpenAI code generation with model: " +:+
                 modelOf env +:+ " ...") :: rest
   else calls ex = []) /\
  match result ex with
  | Resolved url p =>
      present (apiKey env) = true /\ p = repoDirOf env sid /\
      madeDir ex = true /\
      exists logs, calls ex = logs ++ [OnPreviewReady url;
                                       OnLog ("Preview ready at: " +:+ url)] /\
                   forallb isProgress logs = true
  | Rejected e =>
      if present (apiKey env)
      then exists logs, calls ex = logs ++ [OnError (messageOf e)] /\
                        forallb isProgress logs = true
      else calls ex = [] /\
           e = ErrorObject "Missing OPENAI_API_KEY environment variable"
  end.
Proof.
  split; [|apply runOpenAICodegen_shape].
  unfold runOpenAICodegen, modelOf.
  destruct (present (apiKey env)); cbn [negb]; [|reflexivity].
  destruct (tryBlock env _ yaml sid) as [[c dir] [[url p]|e]]; cbn [calls];
    eexists; reflexivity.
Qed.

Lemma map_snd_combine {A B} (l1 : list A) (l2 : list B) :
  length l1 = length l2 -> map snd (combine l1 l2) = l2.
Proof.
  revert l2. induction l1 as [|a l1 IH]; intros [|b l2] H; try discriminate;
    [reflexivity|]. cbn. f_equal. apply IH. now injection H.
Qed.

Lemma callbacks_asRun clock st ex :
  map snd (callbacks (asRun clock st ex)) = calls ex.
Proof.
  apply map_snd_combine. now rewrite length_map, length_seq.
Qed.

Lemma foldl_sessionAfterCallback_ready (l : list (Instant * Callback)) :
  forall g logs url x,
    map snd l = logs ++ [OnPreviewReady url; OnLog x] ->
    forallb isProgress logs = true ->
    foldl sessionAfterCallback g l = setPreviewUrl url (setStatus ready g).
Proof.
  induction l as [|[j c] l IH]; intros g logs url x Hm Hl.
  - now destruct logs.
  - destruct logs as [|c' logs]; cbn in Hm.
    + injection Hm as -> Hm. destruct l as [|[j' c'] [|? ?]]; try discriminate.
      cbn in Hm. injection Hm as ->. reflexivity.
    + injection Hm as -> Hm. cbn in Hl. apply andb_prop in Hl as [Hc Hl].
      cbn [foldl]. rewrite <- (IH g logs url x Hm Hl). f_equal.
      now destruct c'.
Qed.

Lemma foldl_sessionAfterCallback_error (l : list (Instant * Callback)) :
  forall g logs m,
    map snd l = logs ++ [OnError m] ->
    forallb isProgress logs = true ->
    foldl sessionAfterCallback g l = setStatus error g.
Proof.
  induction l as [|[j c] l IH]; intros g logs m Hm Hl.
  - now destruct logs.
  - destruct logs as [|c' logs]; cbn in Hm.
    + injection Hm as -> Hm. destruct l; [reflexivity | discriminate].
    + injection Hm as -> Hm. cbn in Hl. apply andb_prop in Hl as [Hc Hl].
      cbn [foldl]. rewrite <- (IH g logs m Hm Hl). f_equal.
      now destruct c'.
Qed.

Lemma filter_isErrorEvent_emitted i type sid data :
  List.filter isErrorEvent (emitted i type sid data) =
  if String.eqb type "codegen-error" then [EmitEvent type sid data] else [].
Proof.
  unfold emitted. cbn [List.filter isErrorEvent].
  destruct (String.eqb type "codegen-error"), (wsOpen i); reflexivity.
Qed.

(** Each error callback is relayed as one [codegen-error] event, and no other
    callback is. *)
Lemma errorEvents_callbacks sid (l : list (Instant * Callback)) :
  length (List.filter isErrorEvent (flat_map (callbackEffects sid) l)) =
  length (List.filter isOnError (map snd l)).
Proof.
  induction l as [|[j c] l IH]; [reflexivity|].
  cbn [flat_map map snd]. rewrite List.filter_app, length_app, IH.
  destruct c; unfold callbackEffects; cbn [fst snd];
    rewrite filter_isErrorEvent_emitted; reflexivity.
Qed.

Lemma filter_isOnError_progress (logs : list Callback) :
  forallb isProgress logs = true -> List.filter isOnError logs = [].
Proof.
  induction logs as [|c logs IH]; [reflexivity|]. cbn.
  intros [Hc Hl]%andb_prop. destruct c; try discriminate; now apply IH.
Qed.

(** X16.  A generation that the code generator completes.  For a prompt that
    passes validation, when the promise of the code generator is resolved,
    [startCodeGeneration] returns a success with the address of the preview,
    the session is registered with the status [ready], the time of the start,
    the prompt as it was given, the address of the preview and the [repo]
    directory of the session, and the directory of the session exists. *)
Theorem generation_completes env clock st yaml sid i s url p :
  isValid (validateYamlPrompt yaml) = true ->
  result (runOpenAICodegen env (processedPrompt yaml) sid) = Resolved url p ->
  let run := asRun clock st (runOpenAICodegen env (processedPrompt yaml) sid) in
  let s' := fst (startCodeGeneration yaml sid SocketObject i run s) in
  snd (startCodeGeneration yaml sid SocketObject i run s) =
    Returned {| success := true; resultPreviewUrl := Some url;
                resultError := None |} /\
  getGenerationStatus sid s' =
    Some {| status := ready; startTime := now i; yamlPrompt := Some yaml;
            previewUrl := Some url; repoPath := Some (repoDirOf env sid);
            cancelFn := None |} /\
  sid ∈ generated s'.
Proof.
  intros Hv Hr run s'.
  pose proof (runOpenAICodegen_shape env (processedPrompt yaml) sid) as Hs.
  cbv zeta in Hs. rewrite Hr in Hs. destruct Hs as (_ & -> & Hd & logs & Hc & Hl).
  pose proof (startCodeGeneration_valid yaml sid i run s Hv) as H.
  cbv zeta in H. destruct (startCodeGeneration_valid_trace yaml sid i run s Hv)
    as [_ Hg].
  assert (Ho : outcome run = Resolved url (repoDirOf env sid)) by exact Hr.
  rewrite Ho in H, Hg. destruct H as (Hh & Ha & Hres).
  split; [exact Hres|]. split.
  - unfold getGenerationStatus. subst s'. rewrite Ha, Hh, lookup_insert_eq.
    unfold mbind, option_bind. rewrite list_lookup_middle by reflexivity.
    rewrite (foldl_sessionAfterCallback_ready (callbacks run) _ logs url
               ("Preview ready at: " +:+ url)); [reflexivity| |exact Hl].
    subst run. now rewrite callbacks_asRun.
  - subst s'. rewrite Hg. unfold dirsAfterRun. change (createsDir run) with
      (madeDir (runOpenAICodegen env (processedPrompt yaml) sid)).
    rewrite Hd. apply elem_of_union_r, elem_of_singleton. reflexivity.
Qed.

Lemma generation_completes_witness :
  snd (startCodeGeneration completeBody "session-1" SocketObject
         {| now := 2000; wsOpen := true |}
         (asRun exampleClock {| now := 4000; wsOpen := true |}
            (runOpenAICodegen
               (exampleEnvironment (Some "sk-test") (Some emptyProject))
               (processedPrompt completeBody) "session-1"))
         emptyStore)
  = Returned {| success := true;
                resultPreviewUrl := Some "http://localhost:4000";
                resultError := None |}.
Proof.
  apply (generation_completes
           (exampleEnvironment (Some "sk-test") (Some emptyProject))
           exampleClock {| now := 4000; wsOpen := true |} completeBody
           "session-1" {| now := 2000; wsOpen := true |} emptyStore
           "http://localhost:4000" "/app/generated/session-1/repo");
    vm_compute; reflexivity.
Defined.

(** X17.  A generation that the code generator fails.  For a prompt that
    passes validation, when the promise of the code generator is rejected
    (and [cleanupSession] does not throw),
    [startCodeGeneration] returns a failure with the message of the value
    thrown and the session is no longer registered.  The failure is announced
    by two [codegen-error] events when the code generator had its API key
    (one relayed from its error callback, one from [startCodeGeneration]),
    and by one when the key was missing. *)
Theorem generation_fails env clock st yaml sid i s e :
  isValid (validateYamlPrompt yaml) = true ->
  result (runOpenAICodegen env (processedPrompt yaml) sid) = Rejected e ->
  let run := asRun clock st (runOpenAICodegen env (processedPrompt yaml) sid) in
  let s' := fst (startCodeGeneration yaml sid SocketObject i run s) in
  snd (startCodeGeneration yaml sid SocketObject i run s) = Returned (failure (messageOf e)) /\
  getGenerationStatus sid s' = None /\
  (sid ∉ generated s') /\
  exists added,
    trace s' = trace s ++ added /\
    length (List.filter isErrorEvent added) =
      if present (apiKey env) then 2 else 1.
Proof.
  intros Hv Hr run s'.
  pose proof (runOpenAICodegen_shape env (processedPrompt yaml) sid) as Hs.
  cbv zeta in Hs. rewrite Hr in Hs.
  pose proof (startCodeGeneration_valid yaml sid i run s Hv) as H.
  cbv zeta in H. destruct (startCodeGeneration_valid_trace yaml sid i run s Hv)
    as [Ht Hg].
  assert (Ho : outcome run = Rejected e) by exact Hr.
  rewrite Ho in H, Hg.
  change (cleanupError run) with (@None Thrown) in H, Hg.
  destruct H as (Hh & Ha & Hres).
  split; [exact Hres|]. split; [|split].
  - unfold getGenerationStatus. subst s'. now rewrite Ha, lookup_delete_eq.
  - subst s'. rewrite Hg. intros [_ Hn]%elem_of_difference. apply Hn.
    now apply elem_of_singleton.
  - eexists. split; [exact Ht|].
    rewrite !List.filter_app, !length_app, !filter_isErrorEvent_emitted.
    rewrite errorEvents_callbacks. unfold finalEffects. rewrite Ho.
    rewrite List.filter_app, filter_isErrorEvent_emitted.
    subst run. rewrite callbacks_asRun.
    destruct (present (apiKey env)).
    + destruct Hs as (logs & -> & Hl).
      rewrite List.filter_app, (filter_isOnError_progress logs Hl). reflexivity.
    + destruct Hs as [-> _]. reflexivity.
Qed.

Lemma generation_fails_witness :
  snd (startCodeGeneration completeBody "session-1" SocketObject
         {| now := 2000; wsOpen := true |}
         (asRun exampleClock {| now := 4000; wsOpen := true |}
            (runOpenAICodegen
               (exampleEnvironment (Some "sk-test") (Some "no project"))
               (processedPrompt completeBody) "session-1"))
         emptyStore)
  = Returned (failure "Unexpected token in JSON").
Proof.
  apply (generation_fails
           (exampleEnvironment (Some "sk-test") (Some "no project"))
           exampleClock {| now := 4000; wsOpen := true |} completeBody
           "session-1" {| now := 2000; wsOpen := true |} emptyStore
           (ErrorObject "Unexpected token in JSON"));
    vm_compute; reflexivity.
Defined.

(** ** Approval inside a longer message *)

Lemma includes_unfold (s sub : string) :
  includes s sub =
  startsWith s sub ||
  match s with EmptyString => false | String _ s' => includes s' sub end.
Proof. destruct s; reflexivity. Qed.

Lemma includes_trimStart (p s : string) :
  solid p = true -> includes s p = true -> includes (trimStart s) p = true.
Proof.
  intros Hp. destruct p as [|c p]; [discriminate|]. cbn [solid] in Hp.
  apply andb_prop in Hp as [Hc _]. apply negb_true_iff in Hc.
  induction s as [|x s IH]; [trivial|]. cbn [trimStart].
  destruct (isWhiteSpace x) eqn:Hx; [|trivial].
  rewrite includes_unfold. cbn [startsWith].
  destruct (Ascii.eqb c x) eqn:E.
  - apply Ascii.eqb_eq in E. congruence.
  - cbn [andb orb]. exact IH.
Qed.

Lemma trimEnd_split (s : string) :
  exists ws, s = trimEnd s +:+ ws /\ allWhiteSpace ws = true.
Proof.
  induction s as [|c s (ws & IH & Hws)]; [now exists EmptyString|].
  cbn [trimEnd]. destruct (trimEnd s) as [|d r] eqn:E.
  - change (s = ws) in IH. subst ws. destruct (isWhiteSpace c) eqn:Hc.
    + exists (String c s). split; [reflexivity|]. cbn. now rewrite Hc.
    + exists s. now split.
  - exists ws. split; [|exact Hws]. rewrite append_String. now f_equal.
Qed.

Lemma startsWith_allWhiteSpace (ws p : string) :
  allWhiteSpace ws = true -> startsWith ws p = true -> lastSolid p = false.
Proof.
  revert p. induction ws as [|w ws IH]; intros [|c p] Hws H; try reflexivity;
    try discriminate.
  cbn in Hws. apply andb_prop in Hws as [Hw Hws].
  cbn [startsWith] in H. apply andb_prop in H as [E H].
  apply Ascii.eqb_eq in E. subst w. cbn [lastSolid].
  destruct p as [|d p]; [now rewrite Hw|]. now apply IH.
Qed.

Lemma startsWith_before_whiteSpace (t ws p : string) :
  allWhiteSpace ws = true -> lastSolid p = true ->
  startsWith (t +:+ ws) p = true -> startsWith t p = true.
Proof.
  intros Hws. revert p. induction t as [|x t IH]; intros p Hp H.
  - cbn in H. rewrite (startsWith_allWhiteSpace ws p Hws H) in Hp. discriminate.
  - destruct p as [|c p]; [discriminate|]. rewrite append_String in H.
    cbn [startsWith] in H |- *. apply andb_prop in H as [-> H]. cbn [andb].
    destruct p as [|d p]; [now destruct t|]. now apply IH.
Qed.

Lemma includes_before_whiteSpace (t ws p : string) :
  allWhiteSpace ws = true -> lastSolid p = true ->
  includes (t +:+ ws) p = true -> includes t p = true.
Proof.
  intros Hws Hp. induction t as [|x t IH]; intros H.
  - exfalso. cbn [String.append] in H. clear -Hws Hp H.
    induction ws as [|w ws IH].
    + destruct p; discriminate.
    + rewrite includes_unfold in H. apply orb_prop in H as [H|H].
      * rewrite (startsWith_allWhiteSpace _ p Hws H) in Hp. discriminate.
      * cbn in Hws. apply andb_prop in Hws as [_ Hws]. now apply IH.
  - rewrite includes_unfold in H |- *. rewrite append_String in H.
    apply orb_prop in H as [H|H].
    + rewrite <- append_String in H.
      now rewrite (startsWith_before_whiteSpace _ ws p Hws Hp H).
    + rewrite (IH H). apply orb_true_r.
Qed.

Lemma lastSolid_solid (p : string) : solid p = true -> lastSolid p = true.
Proof. destruct p; [discriminate|]. cbn [solid]. now intros [_ H]%andb_prop. Qed.

(** Trimming a text does not change whether it contains a phrase that
    neither begins nor ends with white space. *)
Lemma includes_trim (p s : string) :
  solid p = true -> includes (trim s) p = includes s p.
Proof.
  intros Hp. apply eq_true_iff_eq. split.
  - intros H. apply includes_isSubstring with (trim s);
      [apply trim_isSubstring | exact H].
  - intros H. unfold trim. apply (includes_trimStart p s Hp) in H.
    destruct (trimEnd_split (trimStart s)) as (ws & Hs & Hws).
    rewrite Hs in H.
    exact (includes_before_whiteSpace _ ws p Hws (lastSolid_solid p Hp) H).
Qed.

Lemma approvalPhrases_solid (p : string) :
  In p approvalPhrases -> solid p = true.
Proof.
  assert (H : forallb solid approvalPhrases = true) by (vm_compute; reflexivity).
  rewrite forallb_forall in H. apply H.
Qed.

Lemma includes_app_middle (a m b p : string) :
  includes m p = true -> includes (a +:+ m +:+ b) p = true.
Proof.
  intros H. apply includes_isSubstring with m; [|exact H]. now exists a, b.
Qed.

(** X18.  Approval is found anywhere in a message.  Trimming plays no role
    in the result of [detectYamlApproval], which is [true] exactly when the
    lower-cased message contains a phrase of the table; hence a message that
    contains an approving message, with any text before it and behind it, is
    approving as well. *)
Theorem detectYamlApproval_monotone :
  (forall m, detectYamlApproval m =
             existsb (fun phrase => includes (toLowerCase m) phrase)
               approvalPhrases) /\
  (forall before m after,
     detectYamlApproval m = true ->
     detectYamlApproval (before +:+ m +:+ after) = true).
Proof.
  assert (H : forall m, detectYamlApproval m =
             existsb (fun phrase => includes (toLowerCase m) phrase)
               approvalPhrases).
  { intros m. unfold detectYamlApproval. apply eq_true_iff_eq.
    rewrite !existsb_exists. split; intros (p & Hin & Hp); exists p;
      (split; [exact Hin|]).
    - now rewrite <- (includes_trim p _ (approvalPhrases_solid p Hin)).
    - now rewrite (includes_trim p _ (approvalPhrases_solid p Hin)). }
  split; [exact H|]. intros a m b. rewrite !H, !existsb_exists.
  intros (p & Hin & Hp). exists p. split; [exact Hin|].
  rewrite !toLowerCase_app. now apply includes_app_middle.
Qed.

Lemma detectYamlApproval_monotone_witness :
  detectYamlApproval ("this is not " +:+ "ready" +:+ " yet") = true.
Proof.
  apply (proj2 detectYamlApproval_monotone "this is not " "ready" " yet").
  reflexivity.
Defined.

(** ** The server as a whole *)

Lemma okEffect_emitted i type sid data :
  forallb okEffect (emitted i type sid data) = true.
Proof. unfold emitted. now destruct (wsOpen i). Qed.

Lemma okEffect_callbackEffects sid (l : list (Instant * Callback)) :
  forallb okEffect (flat_map (callbackEffects sid) l) = true.
Proof.
  induction l as [|[j c] l IH]; [reflexivity|]. cbn [flat_map].
  rewrite forallb_app, IH, andb_true_r.
  destruct c; apply okEffect_emitted.
Qed.

Lemma okEffect_finalEffects sid started run :
  forallb okEffect (finalEffects sid started run) = true.
Proof.
  unfold finalEffects. destruct (outcome run).
  - apply okEffect_emitted.
  - now rewrite forallb_app, okEffect_emitted.
Qed.

Lemma includes_app_l (a b sub : string) :
  includes a sub = true -> includes (a +:+ b) sub = true.
Proof. apply includes_isSubstring, isSubstring_prefix. Qed.

Lemma completePrompt_processedPrompt (yaml : string) :
  isValid (validateYamlPrompt yaml) = true ->
  completePrompt (processedPrompt yaml) = true.
Proof.
  unfold validateYamlPrompt, processedPrompt, completePrompt. cbn [isValid].
  destruct (includes yaml "project_name:") eqn:H1; [|discriminate].
  destruct (includes yaml "features:") eqn:H2; [|discriminate].
  destruct (includes yaml "tech_stack:") eqn:H3; [|discriminate].
  intros _. destruct (includes yaml "ui_style:") eqn:H4.
  - now rewrite H1, H2, H3, H4.
  - rewrite !includes_app_l by assumption. cbn [andb].
    apply includes_spec.
    exists (yaml +:+ nl), " Clean and modern". now rewrite !append_assoc.
Qed.

Lemma startCodeGeneration_okEffect yaml sid i run s :
  startsWith sid "session-" = true ->
  forallb okEffect (trace s) = true ->
  forallb okEffect (trace (fst (startCodeGeneration yaml sid SocketObject i run s))) = true.
Proof.
  intros Hsid Hs. destruct (isValid (validateYamlPrompt yaml)) eqn:Hv.
  - destruct (startCodeGeneration_valid_trace yaml sid i run s Hv) as [-> _].
    rewrite !forallb_app, Hs, !okEffect_emitted, okEffect_callbackEffects,
      okEffect_finalEffects.
    cbn [forallb okEffect]. now rewrite (completePrompt_processedPrompt yaml Hv), Hsid.
  - rewrite (startCodeGeneration_invalid yaml sid i run s Hv). cbv zeta.
    destruct (cleanupError run); cbn [fst trace];
      now rewrite !forallb_app, Hs, !okEffect_emitted.
Qed.

Lemma sendIfOpen_okEffect (browserWs : option bool) (m : BrowserMsg) (s : Store) :
  forallb okEffect (trace s) = true ->
  forallb okEffect (trace (sendIfOpen browserWs m s)) = true.
Proof.
  intros H. destruct browserWs as [[]|]; try exact H.
  cbn. now rewrite forallb_app, H.
Qed.

Lemma runGeneration_okEffect browserWs t yaml sid run w :
  startsWith sid "session-" = true ->
  forallb okEffect (trace (store w)) = true ->
  forallb okEffect (trace (store (runGeneration browserWs t yaml sid run w))) = true.
Proof.
  intros Hsid Hw. unfold runGeneration. destruct browserWs as [isOpen|].
  - pose proof (startCodeGeneration_okEffect yaml sid
                  {| now := t; wsOpen := isOpen |} run (store w) Hsid Hw) as H.
    destruct (startCodeGeneration yaml sid SocketObject _ run (store w)) as [s [r|e]];
      [destruct (success r)|]; exact H.
  - rewrite startCodeGeneration_null. exact Hw.
Qed.

Lemma onConversationText_okEffect role content t browserWs random run w :
  forallb okEffect (trace (store w)) = true ->
  forallb okEffect
    (trace (store (onConversationText role content t browserWs random run w)))
  = true.
Proof.
  intros Hw. unfold onConversationText.
  set (s := if String.eqb role "assistant"
            then if hasYamlContent content then _ else _ else _).
  assert (Hs : forallb okEffect (trace s) = true).
  { subst s. destruct (String.eqb role "assistant");
      [destruct (hasYamlContent content)|];
      try exact Hw; now apply sendIfOpen_okEffect. }
  clearbody s.
  set (c := if String.eqb role "assistant" then _ else _). clearbody c.
  destruct (_ && _ && _ && _).
  - apply runGeneration_okEffect.
    + unfold generateSessionId. apply startsWith_app.
    + unfold beginGeneration. cbn [store]. now apply sendIfOpen_okEffect.
  - destruct (_ && _ && _); [|exact Hs].
    cbn [store]. now apply sendIfOpen_okEffect.
Qed.

(** X19.  The server never calls the code generator with an incomplete
    prompt.  Whatever browsers connect and whatever the agent delivers, from
    the start of the server on, outside the phase [ideation] a specification
    is bound, and every call of the code generator has a prompt that contains
    the keys [project_name:], [features:], [tech_stack:] and [ui_style:] and
    a session identifier minted by [generateSessionId]. *)
Theorem server_calls_generator_with_complete_prompt (events : list ServerEvent) :
  let w := foldl serve initialWorld events in
  specBound (conversationState w) /\
  forall p sid,
    In (RunCodegen p sid) (trace (store w)) ->
    exists prompt,
      p = Some prompt /\ completePrompt prompt = true /\
      startsWith sid "session-" = true.
Proof.
  cbv zeta.
  assert (H : forall w,
             specBound (conversationState w) ->
             forallb okEffect (trace (store w)) = true ->
             specBound (conversationState (foldl serve w events)) /\
             forallb okEffect (trace (store (foldl serve w events))) = true).
  { induction events as [|e events IH]; intros w Hc Ht; [now split|].
    cbn [foldl]. apply IH; destruct e as [|role content t b random run].
    - now left.
    - now apply onConversationText_specBound.
    - exact Ht.
    - now apply onConversationText_okEffect. }
  destruct (H initialWorld) as [Hc Ht]; [now left | reflexivity |].
  split; [exact Hc|]. intros p sid Hin.
  rewrite forallb_forall in Ht. specialize (Ht _ Hin). cbn [okEffect] in Ht.
  destruct p as [prompt|]; [|discriminate].
  apply andb_prop in Ht as [H1 H2]. now exists prompt.
Qed.

Lemma server_calls_generator_with_complete_prompt_witness :
  exists prompt,
    Some completeBody = Some prompt /\ completePrompt prompt = true /\
    startsWith "session-2000-k3j9x2m1p" "session-" = true.
Proof.
  apply (proj2 (server_calls_generator_with_complete_prompt
                  [ AgentSays "assistant" genericBlock 1000 (Some true)
                      "k3j9x2m1p" successfulRun;
                    BrowserConnects;
                    AgentSays "assistant" genericBlock 1500 (Some true)
                      "k3j9x2m1p" successfulRun;
                    AgentSays "user" "yes" 2000 (Some true)
                      "k3j9x2m1p" successfulRun ])
           (Some completeBody) "session-2000-k3j9x2m1p").
  vm_compute. repeat (first [left; reflexivity | right]).
Defined.

(** ** The JSON of the generated project *)

Lemma cut_after_lacks (c : ascii) (pre b : string) :
  lacks c pre = true ->
  cut (pre +:+ String c b) (String c EmptyString) = Some (pre, b).
Proof.
  induction pre as [|d pre IH]; intros Hpre.
  - exact (cut_at_start (String c EmptyString) b).
  - cbn [lacks] in Hpre. apply andb_true_iff in Hpre as [Hd Hpre].
    rewrite append_String, cut_unfold. cbn [startsWith].
    rewrite Ascii.eqb_sym. apply negb_true_iff in Hd. rewrite Hd. cbn [andb].
    now rewrite IH.
Qed.

Lemma uptoLastBrace_lacks (post : string) :
  lacks "}" post = true -> uptoLastBrace post = None.
Proof.
  induction post as [|d post IH]; [reflexivity|]. cbn [lacks uptoLastBrace].
  intros [Hd Hpost]%andb_true_iff. rewrite (IH Hpost).
  apply negb_true_iff in Hd. now rewrite Hd.
Qed.

Lemma uptoLastBrace_last (mid post : string) :
  lacks "}" post = true ->
  uptoLastBrace (mid +:+ String "}" post) = Some (mid +:+ "}").
Proof.
  intros Hpost. induction mid as [|d mid IH].
  - change (uptoLastBrace (String "}" post) = Some (String "}" EmptyString)).
    cbn [uptoLastBrace]. now rewrite (uptoLastBrace_lacks post Hpost).
  - rewrite !append_String. cbn [uptoLastBrace]. now rewrite IH.
Qed.

(** The first attempt takes the text from the first opening brace to the
    last closing brace. *)
Lemma matchBraces_spec (pre mid post : string) :
  lacks "{" pre = true -> lacks "}" post = true ->
  matchBraces (pre +:+ "{" +:+ mid +:+ "}" +:+ post) = Some ("{" +:+ mid +:+ "}").
Proof.
  intros Hpre Hpost. unfold matchBraces.
  change ("{" +:+ mid +:+ "}" +:+ post) with (String "{" (mid +:+ String "}" post)).
  rewrite (cut_after_lacks "{" pre _ Hpre).
  now rewrite (uptoLastBrace_last mid post Hpost).
Qed.

Lemma removeAll_noBacktick (pat j rest : string) :
  noBacktick j = true ->
  removeAll (String "`" pat) 0 false (j +:+ rest) =
  j +:+ removeAll (String "`" pat) 0 false rest.
Proof.
  induction j as [|c j IH]; intros Hj; [reflexivity|].
  cbn [noBacktick] in Hj. apply andb_true_iff in Hj as [Hc Hj].
  apply negb_true_iff in Hc. rewrite !append_String.
  cbn [removeAll andb startsWith]. rewrite Ascii.eqb_sym, Hc. cbn [andb].
  now rewrite (IH Hj).
Qed.

Lemma lastSolid_snoc (s : string) (c : ascii) :
  lastSolid (s +:+ String c EmptyString) = negb (isWhiteSpace c).
Proof.
  induction s as [|d s IH]; [reflexivity|]. rewrite append_String.
  destruct s as [|e s]; [reflexivity|]. exact IH.
Qed.

Lemma trimEnd_lastSolid (s : string) : lastSolid s = true -> trimEnd s = s.
Proof.
  induction s as [|c s IH]; [discriminate|]. destruct s as [|d s].
  - cbn. intros H. apply negb_true_iff in H. now rewrite H.
  - intros H. specialize (IH H). now apply trimEnd_cons.
Qed.

Lemma trim_solid (s : string) : solid s = true -> trim s = s.
Proof.
  intros H. pose proof (lastSolid_solid s H) as Hl.
  destruct s as [|c s]; [discriminate|]. cbn [solid] in H.
  apply andb_prop in H as [Hc _]. apply negb_true_iff in Hc.
  unfold trim. rewrite (trimStart_fixed c s Hc). now apply trimEnd_lastSolid.
Qed.

Lemma cleaned_fencedJson (json : string) :
  noBacktick json = true -> cleaned (fencedJson json) = trim json.
Proof.
  intros Hj. unfold cleaned, fencedJson.
  change (removeAll "```json" 0 false ("```json" +:+ nl +:+ json +:+ nl +:+ "```"))
    with (removeAll "```json" 0 false (json +:+ nl +:+ "```")).
  rewrite (removeAll_noBacktick "``json" json _ Hj).
  change (removeAll "```json" 0 false (nl +:+ "```")) with (nl +:+ "```").
  rewrite (removeAll_noBacktick "``" json _ Hj).
  change (removeAll "```" 0 false (nl +:+ "```")) with nl.
  exact (trim_whiteSpace_around EmptyString json nl eq_refl eq_refl).
Qed.

(** X20.  An answer that is one fenced block.  When the model answers with
    a block fenced by [```json] whose body begins with an opening brace, ends
    with a closing brace and has no backtick, the first attempt hands exactly
    the body to [JSON.parse], and the text cleaned for the second attempt is
    the body again: if [JSON.parse] throws on the body, the second attempt
    throws the same value, after the log line of the retry. *)
Theorem fenced_json_is_parsed_as_is env mid :
  noBacktick mid = true ->
  let json := "{" +:+ mid +:+ "}" in
  matchBraces (fencedJson json) = Some json /\
  cleaned (fencedJson json) = json /\
  parseFiles env (fencedJson json) =
    match jsonParse env json with
    | Returned v => ([], Returned v)
    | Threw e => ([OnLog "Failed to parse JSON, attempting to fix..."], Threw e)
    end.
Proof.
  intros Hmid json.
  assert (Hm : matchBraces (fencedJson json) = Some json).
  { unfold fencedJson, json.
    rewrite !append_assoc.
    exact (matchBraces_spec ("```json" +:+ nl) mid (nl +:+ "```") eq_refl eq_refl). }
  assert (Hj : noBacktick json = true).
  { unfold json. change (noBacktick (mid +:+ "}") = true).
    clear -Hmid. induction mid as [|c mid IH]; [reflexivity|].
    cbn [noBacktick] in Hmid. apply andb_true_iff in Hmid as [Hc Hmid].
    rewrite append_String. cbn [noBacktick]. now rewrite Hc, IH. }
  assert (Hc : cleaned (fencedJson json) = json).
  { rewrite (cleaned_fencedJson json Hj). apply trim_solid.
    unfold json. change (lastSolid (String "{" (mid +:+ "}")) = true).
    exact (lastSolid_snoc (String "{" mid) "}"). }
  split; [exact Hm|]. split; [exact Hc|].
  unfold parseFiles. rewrite Hm, Hc. now destruct (jsonParse env json).
Qed.

Lemma fenced_json_is_parsed_as_is_witness :
  cleaned (fencedJson ("{" +:+ " files " +:+ "}")) = "{" +:+ " files " +:+ "}".
Proof.
  apply (fenced_json_is_parsed_as_is
           (exampleEnvironment (Some "sk-test") None) " files ").
  reflexivity.
Defined.

(** ** What the browser is not shown *)

Lemma startsWithKey_word (key rest : string) :
  wordChars key = true ->
  forall seen, seen = true \/ truthy key = true ->
  startsWithKey seen (key +:+ ":" +:+ rest) = true.
Proof.
  induction key as [|c key IH]; intros Hk seen Hs.
  - destruct Hs as [->|Hs]; [reflexivity | discriminate].
  - cbn [wordChars] in Hk. apply andb_prop in Hk as [Hc Hk].
    rewrite append_String. cbn [startsWithKey]. rewrite Hc.
    apply (IH Hk). now left.
Qed.

Lemma matchesKeyValue_indent (indent x : string) :
  allWhiteSpace indent = true -> startsWithKey false x = true ->
  matchesKeyValue true (indent +:+ x) = true.
Proof.
  intros Hi Hx. induction indent as [|c indent IH].
  - change (matchesKeyValue true x = true). destruct x as [|d x]; [discriminate|].
    cbn [matchesKeyValue andb]. now rewrite Hx.
  - cbn [allWhiteSpace] in Hi. apply andb_prop in Hi as [Hc Hi].
    rewrite append_String. cbn [matchesKeyValue andb]. rewrite Hc, orb_true_r.
    rewrite (IH Hi). apply orb_true_r.
Qed.

Lemma matchesKeyValue_next_line (p x : string) :
  matchesKeyValue true x = true ->
  forall b, matchesKeyValue b (p +:+ nl +:+ x) = true.
Proof.
  intros Hx. induction p as [|c p IH]; intros b.
  - change (matchesKeyValue b (String "010" x) = true).
    cbn [matchesKeyValue]. change (isLineTerminator "010") with true.
    cbn [orb]. rewrite Hx. apply orb_true_r.
  - rewrite append_String. cbn [matchesKeyValue]. rewrite IH. apply orb_true_r.
Qed.

Lemma withheld_trace (content : string) :
  hasYamlContent content = true ->
  forall t browserWs random run w,
    trace (store (onConversationText "assistant" content t browserWs random run w))
    = trace (store w).
Proof.
  intros Hy t browserWs random run w.
  unfold onConversationText. cbn [String.eqb Ascii.eqb Bool.eqb]. cbn match.
  rewrite Hy. cbn [andb]. reflexivity.
Qed.

(** X21.  An assistant message with a line that consists of white space, a
    word and a colon, followed by anything, is never shown, whether or not it
    has to do with a specification: [hasYamlContent] holds for it, so the
    handler sends nothing to the browser for it. *)
Theorem keyed_line_is_withheld (indent key rest content : string) :
  allWhiteSpace indent = true -> isWord key = true ->
  content = indent +:+ key +:+ ":" +:+ rest \/
  (exists p, content = p +:+ nl +:+ indent +:+ key +:+ ":" +:+ rest) ->
  hasYamlContent content = true /\
  forall t browserWs random run w,
    trace (store (onConversationText "assistant" content t browserWs random run w))
    = trace (store w).
Proof.
  intros Hi [Ht Hk]%andb_prop Hc.
  assert (Hl : matchesKeyValue true (indent +:+ key +:+ ":" +:+ rest) = true).
  { apply matchesKeyValue_indent; [exact Hi|].
    apply startsWithKey_word; [exact Hk | now right]. }
  assert (Hy : hasYamlContent content = true).
  { unfold hasYamlContent. destruct Hc as [->|[p ->]].
    - rewrite Hl. apply orb_true_r.
    - rewrite (matchesKeyValue_next_line p _ Hl). apply orb_true_r. }
  split; [exact Hy | now apply withheld_trace].
Qed.

Lemma keyed_line_is_withheld_witness :
  hasYamlContent "Note: tell me more about your users." = true.
Proof.
  apply (keyed_line_is_withheld "" "Note" " tell me more about your users."
           "Note: tell me more about your users.");
    [reflexivity | reflexivity | left; reflexivity].
Defined.
